(** * analyze-require-default: the work queue, the path resolver and the
      suspicious-module registry, embedded from [src/Queue.ts] and
      [src/index.ts].

    [src/index.ts] holds two historical variants of the [Analyzer] class:
    the directory-scan variant (lines 1-329, rooted at a project directory)
    and the entry-seeded variant (lines 331-662, started from entry files).
    They are embedded as the modules [DirScan] and [EntrySeeded]; the
    resolution code they share word for word lives in [Resolver]. *)

From Stdlib Require Import String Ascii ZArith Bool.
From stdpp Require Import base option list gmap strings pretty.

Set Default Proof Using "Type".
Set Warnings "-register-all".
Local Open Scope list_scope.

(** ** Queue.ts: a singly linked queue with [root] and [last] references *)

Module Queue.

(** Node objects live in a heap; a reference is an index into it and
    [new Node(item)] appends a cell.  Cells are never reclaimed. *)
Definition ref := nat.

Record Node (T : Type) := mkNode { value : T; next : option ref }.
Arguments mkNode {T} _ _.
Arguments value {T} _.
Arguments next {T} _.

Record t (T : Type) := mkQueue {
  heap : list (Node T);
  root : option ref;
  last : option ref
}.
Arguments mkQueue {T} _ _ _.
Arguments heap {T} _.
Arguments root {T} _.
Arguments last {T} _.

Section ops.
Context {T : Type}.

(** [new Queue()]: both fields undefined. *)
Definition empty : t T := mkQueue [] None None.

(** [prevLast.next = this.last] *)
Definition set_next (l : ref) (nx : option ref) (h : list (Node T)) : list (Node T) :=
  match h !! l with
  | Some n => <[l := mkNode (value n) nx]> h
  | None => h
  end.

Definition push (item : T) (q : t T) : t T :=
  let node := length (heap q) in
  let h := heap q ++ [mkNode item None] in
  match root q, last q with
  | Some r, Some prevLast => mkQueue (set_next prevLast (Some node) h) (Some r) (Some node)
  | _, _ => mkQueue h (Some node) (Some node)
  end.

(** [pop] returns [null] (here [None]) on an empty queue.  A reference
    always points to a cell in JavaScript; the model answers [None] on a
    dangling one, which [repr] below rules out. *)
Definition pop (q : t T) : option T * t T :=
  match root q with
  | None => (None, q)
  | Some prevRoot =>
      match heap q !! prevRoot with
      | Some n => (Some (value n), mkQueue (heap q) (next n) (last q))
      | None => (None, q)
      end
  end.

Definition hasItems (q : t T) : bool :=
  match root q with Some _ => true | None => false end.

(** *** The reference FIFO: a plain list, pushed at the back *)

Inductive op := Push (item : T) | Pop | HasItems.
Inductive obs := OPushed | OPopped (r : option T) | OHasItems (b : bool).

Definition step (o : op) (q : t T) : obs * t T :=
  match o with
  | Push x => (OPushed, push x q)
  | Pop => let '(r, q') := pop q in (OPopped r, q')
  | HasItems => (OHasItems (hasItems q), q)
  end.

Definition model_step (o : op) (l : list T) : obs * list T :=
  match o with
  | Push x => (OPushed, l ++ [x])
  | Pop => match l with
           | [] => (OPopped None, [])
           | x :: l' => (OPopped (Some x), l')
           end
  | HasItems => (OHasItems (match l with [] => false | _ => true end), l)
  end.

Fixpoint run (os : list op) (q : t T) : list obs :=
  match os with
  | [] => []
  | o :: os' => let '(b, q') := step o q in b :: run os' q'
  end.

Fixpoint model_run (os : list op) (l : list T) : list obs :=
  match os with
  | [] => []
  | o :: os' => let '(b, l') := model_step o l in b :: model_run os' l'
  end.

(** [chain h o lst l]: following [next] from [o] spells out [l], ends in a
    cell without successor, and that cell is the one [lst] refers to. *)
Fixpoint chain (h : list (Node T)) (o lst : option ref) (l : list T) : Prop :=
  match l with
  | [] => o = None
  | x :: l' =>
      ∃ r nx, o = Some r ∧ h !! r = Some (mkNode x nx) ∧
              chain h nx lst l' ∧ (l' = [] → lst = Some r)
  end.

Definition repr (q : t T) (l : list T) : Prop :=
  chain (heap q) (root q) (last q) l.

End ops.
End Queue.

(** ** JavaScript strings *)

Module JsString.

Definition chars (s : string) : list ascii := list_ascii_of_string s.
Definition of_chars (l : list ascii) : string := string_of_list_ascii l.

(** [s.startsWith(pre)] *)
Definition startsWith (s pre : string) : bool := String.prefix pre s.

(** [s.includes(sub)] *)
Fixpoint includes (s sub : string) : bool :=
  String.prefix sub s ||
  match s with
  | EmptyString => false
  | String _ s' => includes s' sub
  end.

(** [s.split(c)] for a one-character separator: never the empty array. *)
Fixpoint split_chars (c : ascii) (cur : list ascii) (l : list ascii) : list string :=
  match l with
  | [] => [of_chars (rev cur)]
  | x :: l' =>
      if Ascii.eqb x c then of_chars (rev cur) :: split_chars c [] l'
      else split_chars c (x :: cur) l'
  end.

Definition split (s : string) (c : ascii) : list string := split_chars c [] (chars s).

(** [parts.join(sep)] *)
Definition join (parts : list string) (sep : string) : string := String.concat sep parts.

(** [s.replace(pat, rep)] with a string pattern: the first occurrence only. *)
Fixpoint replace (s pat rep : string) : string :=
  if String.prefix pat s
  then rep +:+ String.substring (String.length pat) (String.length s - String.length pat) s
  else match s with
       | EmptyString => EmptyString
       | String c s' => String c (replace s' pat rep)
       end.

(** [String(n)] for a non-negative integer. *)
Definition of_nat (n : nat) : string := pretty n.

End JsString.

(** ** Node's [path] module, POSIX flavour

    The module belongs to the runtime, not to the repository; the
    definitions follow the algorithms of Node's [path.posix]. *)

Module Path.
Import JsString.

Definition sep : string := "/".
Definition slash : ascii := "/"%char.
Definition dot : ascii := "."%char.

Definition is_slash (c : ascii) : bool := Ascii.eqb c slash.
Definition is_dot (c : ascii) : bool := Ascii.eqb c dot.

Definition isAbsolute (p : string) : bool :=
  match p with
  | String c _ => is_slash c
  | EmptyString => false
  end.

Fixpoint drop_while {A} (f : A → bool) (l : list A) : list A :=
  match l with
  | x :: l' => if f x then drop_while f l' else l
  | [] => []
  end.

Fixpoint take_while {A} (f : A → bool) (l : list A) : list A :=
  match l with
  | x :: l' => if f x then x :: take_while f l' else []
  | [] => []
  end.

(** The last path component, trailing separators ignored, as characters. *)
Definition base_chars (p : string) : list ascii :=
  rev (take_while (λ c, negb (is_slash c)) (drop_while is_slash (rev (chars p)))).

Definition basename (p : string) : string := of_chars (base_chars p).

(** Splits a component at its last dot.  There is no extension when the
    component has no dot, starts with its only candidate dot, or is [..]. *)
Definition split_ext (b : list ascii) : list ascii * list ascii :=
  let r := rev b in
  let suffix := take_while (λ c, negb (is_dot c)) r in
  match drop_while (λ c, negb (is_dot c)) r with
  | [] => (b, [])
  | _ :: stem_rev =>
      match stem_rev, suffix with
      | [], _ => (b, [])
      | [c], [] => if is_dot c then (b, []) else (rev stem_rev, dot :: rev suffix)
      | _, _ => (rev stem_rev, dot :: rev suffix)
      end
  end.

Definition extname (p : string) : string := of_chars (split_ext (base_chars p)).2.

(** [path.parse] never looks at index 0 of an absolute path, so it does
    not see that the only component of [/..] is the whole of [..]: there,
    and only there, it splits at the last dot where [extname] does not. *)
Definition parse_splits_dotdot (p : string) : bool :=
  String.eqb (of_chars (rev (drop_while is_slash (rev (chars p))))) "/..".

(** [path.parse(p).name] and [path.parse(p).ext] *)
Definition parse_name (p : string) : string :=
  if parse_splits_dotdot p then "." else of_chars (split_ext (base_chars p)).1.
Definition parse_ext (p : string) : string :=
  if parse_splits_dotdot p then "." else extname p.

(** [path.dirname]: the scan from the end stops at the first separator
    found after a non-separator and never looks at index 0. *)
Definition dirname (p : string) : string :=
  match chars p with
  | [] => "."
  | c0 :: rest =>
      let r := drop_while (λ c, negb (is_slash c)) (drop_while is_slash (rev rest)) in
      match r with
      | [] => if is_slash c0 then "/" else "."
      | _ :: before =>
          match before with
          | [] => if is_slash c0 then "//" else of_chars [c0]
          | _ => of_chars (c0 :: rev before)
          end
      end
  end.

(** [normalizeString]: drops empty and [.] segments and resolves [..]. *)
Fixpoint normalize_segments (allowAboveRoot : bool) (acc : list string) (segs : list string)
  : list string :=
  match segs with
  | [] => rev acc
  | seg :: segs' =>
      if String.eqb seg "" || String.eqb seg "." then normalize_segments allowAboveRoot acc segs'
      else if String.eqb seg ".." then
        match acc with
        | top :: acc' =>
            if String.eqb top ".."
            then normalize_segments allowAboveRoot
                   (if allowAboveRoot then ".." :: acc else acc) segs'
            else normalize_segments allowAboveRoot acc' segs'
        | [] => normalize_segments allowAboveRoot
                  (if allowAboveRoot then [".."] else []) segs'
        end
      else normalize_segments allowAboveRoot (seg :: acc) segs'
  end.

Definition ends_with_slash (p : string) : bool :=
  match rev (chars p) with
  | c :: _ => is_slash c
  | [] => false
  end.

Definition normalize (p : string) : string :=
  if String.eqb p "" then "." else
  let abs := isAbsolute p in
  let trailing := ends_with_slash p in
  let body := JsString.join (normalize_segments (negb abs) [] (split p slash)) "/" in
  if String.eqb body "" then
    (if abs then "/" else if trailing then "./" else ".")
  else
    let body' := if trailing then body +:+ "/" else body in
    if abs then "/" +:+ body' else body'.

(** [path.join(...args)]: the non-empty arguments, joined and normalized. *)
Definition join (args : list string) : string :=
  match filter (λ a, a ≠ "") args with
  | [] => "."
  | parts => normalize (JsString.join parts "/")
  end.

End Path.


(** ** JavaScript objects used as dictionaries

    [Record<FilePath, V>]: the properties, and the order in which keys were
    first written, which is the order [for ... in] enumerates path-like
    keys in.  Only own properties are modelled. *)

Module JsObject.

Record t (V : Type) := mk { props : gmap string V; keys : list string }.
Arguments mk {V} _ _.
Arguments props {V} _.
Arguments keys {V} _.

Section ops.
Context {V : Type}.

Definition empty : t V := mk ∅ [].

(** [o[k]] *)
Definition get (o : t V) (k : string) : option V := props o !! k.

(** [o[k] = v] *)
Definition set (k : string) (v : V) (o : t V) : t V :=
  mk (<[k := v]> (props o))
     (match props o !! k with Some _ => keys o | None => keys o ++ [k] end).

(** The pairs [for (const k in o)] walks through. *)
Definition entries (o : t V) : list (string * V) :=
  omap (λ k, (λ v, (k, v)) <$> props o !! k) (keys o).

End ops.
End JsObject.

(** ** The syntax tree handed over by [@babel/parser]

    The fragment of Babel's node types the visitors can tell apart.
    Classes come with their name and heritage only, their bodies are left
    out. *)

Inductive node :=
  | Identifier (name : string)
  | StringLiteral (value : string)
  | NumericLiteral (value : Z)
  | TemplateLiteral (raw : string)
  | ObjectPattern (names : list string)
  | CallExpression (callee : node) (arguments : list node) (loc : option (nat * nat))
  | MemberExpression (object property : node)
  | AssignmentExpression (left right : node)
  | VariableDeclarator (id : node) (init : option node)
  | VariableDeclaration (declarations : list node)
  | ExpressionStatement (expression : node)
  | ExportDefaultDeclaration (declaration : node)
  | ImportDeclaration (source : string)
  | ClassDeclaration (id : option node) (superClass : option node)
  | ClassExpression (id : option node) (superClass : option node)
  | TSEnumDeclaration (id : node) (members : list node)
  | TSEnumMember (id : node) (initializer : option node)
  | Program (body : list node)
  | File (program : node).

(** [path.container]: the parent node, or the array the node sits in. *)
Inductive container :=
  | CNode (parent : node)
  | CList (siblings : list node)
  | CNone.

(** What a property read yields on a value that may lack the property. *)
Inductive jsval :=
  | JUndefined
  | JString (s : string)
  | JNumber (z : Z).

(** [n.name] *)
Definition node_name (n : node) : jsval :=
  match n with
  | Identifier s => JString s
  | _ => JUndefined
  end.

(** [n.value] *)
Definition node_value (n : node) : jsval :=
  match n with
  | StringLiteral s => JString s
  | NumericLiteral z => JNumber z
  | _ => JUndefined
  end.

(** [n.type] *)
Definition node_type (n : node) : string :=
  match n with
  | Identifier _ => "Identifier"
  | StringLiteral _ => "StringLiteral"
  | NumericLiteral _ => "NumericLiteral"
  | TemplateLiteral _ => "TemplateLiteral"
  | ObjectPattern _ => "ObjectPattern"
  | CallExpression _ _ _ => "CallExpression"
  | MemberExpression _ _ => "MemberExpression"
  | AssignmentExpression _ _ => "AssignmentExpression"
  | VariableDeclarator _ _ => "VariableDeclarator"
  | VariableDeclaration _ => "VariableDeclaration"
  | ExpressionStatement _ => "ExpressionStatement"
  | ExportDefaultDeclaration _ => "ExportDefaultDeclaration"
  | ImportDeclaration _ => "ImportDeclaration"
  | ClassDeclaration _ _ => "ClassDeclaration"
  | ClassExpression _ _ => "ClassExpression"
  | TSEnumDeclaration _ _ => "TSEnumDeclaration"
  | TSEnumMember _ _ => "TSEnumMember"
  | Program _ => "Program"
  | File _ => "File"
  end.

(** [container.id]: declarators, classes and enums have one; a class may
    be anonymous. *)
Definition container_id (c : container) : option node :=
  match c with
  | CNode (VariableDeclarator id _) => Some id
  | CNode (ClassDeclaration id _) => id
  | CNode (ClassExpression id _) => id
  | CNode (TSEnumDeclaration id _) => Some id
  | CNode (TSEnumMember id _) => Some id
  | _ => None
  end.

(** [container.property] *)
Definition container_property (c : container) : option node :=
  match c with
  | CNode (MemberExpression _ p) => Some p
  | _ => None
  end.

(** JavaScript truthiness of the values read above. *)
Definition truthy (v : jsval) : bool :=
  match v with
  | JUndefined => false
  | JString s => negb (String.eqb s "")
  | JNumber z => negb (Z.eqb z 0)
  end.

(** What [traverse] dispatches to the three visitors, in visiting order. *)
Inductive event :=
  | EvImport (source : string)
  | EvCall (callee : node) (arguments : list node) (loc : option (nat * nat)) (c : container)
  | EvExportDefault.

(** Depth first, parents before children, children in the order of Babel's
    visitor keys. *)
Fixpoint events (c : container) (n : node) : list event :=
  match n with
  | CallExpression callee args loc =>
      EvCall callee args loc c
        :: events (CNode n) callee ++ flat_map (events (CList args)) args
  | MemberExpression o p => events (CNode n) o ++ events (CNode n) p
  | AssignmentExpression l r => events (CNode n) l ++ events (CNode n) r
  | VariableDeclarator id init =>
      events (CNode n) id
        ++ match init with Some i => events (CNode n) i | None => [] end
  | VariableDeclaration ds => flat_map (events (CList ds)) ds
  | ExpressionStatement e => events (CNode n) e
  | ExportDefaultDeclaration d => EvExportDefault :: events (CNode n) d
  | ImportDeclaration s => [EvImport s]
  | ClassDeclaration id sc | ClassExpression id sc =>
      match id with Some i => events (CNode n) i | None => [] end
        ++ match sc with Some e => events (CNode n) e | None => [] end
  | TSEnumDeclaration id ms => events (CNode n) id ++ flat_map (events (CList ms)) ms
  | TSEnumMember id init =>
      events (CNode n) id
        ++ match init with Some i => events (CNode n) i | None => [] end
  | Program body => flat_map (events (CList body)) body
  | File p => events (CNode n) p
  | _ => []
  end.

(** ** The statement forms the claims speak about *)

(** [const x = require('m');] with the call at [loc] *)
Definition const_require (x m : string) (loc : nat * nat) : node :=
  VariableDeclaration
    [VariableDeclarator (Identifier x)
       (Some (CallExpression (Identifier "require") [StringLiteral m] (Some loc)))].


(** [const x = require(y);] with an identifier as argument *)
Definition const_require_dynamic (x y : string) (loc : nat * nat) : node :=
  VariableDeclaration
    [VariableDeclarator (Identifier x)
       (Some (CallExpression (Identifier "require") [Identifier y] (Some loc)))].

(** [export default n;] *)
Definition export_default (n : Z) : node := ExportDefaultDeclaration (NumericLiteral n).

Definition file_of (body : list node) : node := File (Program body).

(** ** Outcomes of a run: normal completion, [process.exit], or an
       exception nobody catches *)

Inductive exn :=
  | TypeError (msg : string)
  | SyntaxError (msg : string)
  | Error (msg : string)
  | IOError (path : string).

Inductive outcome (S A : Type) :=
  | Done (a : A) (s : S)
  | Exited (code : Z) (s : S)
  | Thrown (e : exn) (s : S).
Arguments Done {S A} _ _.
Arguments Exited {S A} _ _.
Arguments Thrown {S A} _ _.

Definition M (S A : Type) := S → outcome S A.

Definition ret {S A} (a : A) : M S A := λ s, Done a s.
Definition bind {S A B} (m : M S A) (k : A → M S B) : M S B :=
  λ s, match m s with
       | Done a s' => k a s'
       | Exited c s' => Exited c s'
       | Thrown e s' => Thrown e s'
       end.
Definition throw {S A} (e : exn) : M S A := λ s, Thrown e s.
Definition modify {S} (f : S → S) : M S unit := λ s, Done tt (f s).

Notation "'let*' x ':=' m 'in' k" := (bind m (λ x, k))
  (at level 10, x pattern, m at level 100, k at level 200, only parsing).

Fixpoint forEach {S A} (f : A → M S unit) (l : list A) : M S unit :=
  match l with
  | [] => ret tt
  | x :: l' => let* _ := f x in forEach f l'
  end.

(** Node's [validateString]: every [path] function starts with it. *)
Definition validateString {S} (v : jsval) : M S string :=
  match v with
  | JString s => ret s
  | _ => throw (TypeError "The 'path' argument must be of type string")
  end.

(** ** The runtime the analyzer talks to

    File system, parser, regular expressions and [require.resolve] are
    collaborators of the program; a [None] (or [inl]) answer stands for the
    exception the JavaScript function throws. *)

Record NodeEnv := {
  existsSync : string → bool;
  readdirSync : string → option (list string);
  lstat_isDirectory : string → option bool;
  readFileSync : string → option string;
  (** [parse(source, { sourceType: 'module', plugins })] *)
  parse : list string → string → string + node;
  (** [require.resolve(request, options)], [options.paths] when given *)
  require_resolve : string → option (list string) → option string;
  (** [new RegExp(pattern).test(s)] *)
  regexp_test : string → string → bool;
  (** whether [new RegExp(pattern)] returns; it throws a [SyntaxError]
      otherwise *)
  regexp_valid : string → bool
}.

Definition PARSEABLE_EXTENSIONS : list string := [".ts"; ".js"; ".jsx"].

(** [PARSEABLE_EXTENSIONS.has(ext)] *)
Definition parseable (ext : string) : bool :=
  bool_decide (ext ∈ PARSEABLE_EXTENSIONS).

(** [ModuleData] / [SuspiciousModule] *)
Record ModuleData := mkModuleData {
  hasDefaultExport : bool;
  callers : list string
}.

(** [new ModuleData()] *)
Definition new_ModuleData : ModuleData := mkModuleData false [].

(** What a resolution ends in: a path, or the line [res] prints before
    [process.exit(1)]. *)
Inductive resolution :=
  | Resolved (p : string)
  | Unresolved (printed : list string).

(** ** The resolution code both variants share

    [root] is [this.root] in the directory-scan variant and
    [this.options.root] in the entry-seeded one; [alias] is
    [this.options.alias]. *)

Module Resolver.
Section resolver.
Variable env : NodeEnv.
Variable root : string.
Variable alias : gmap string string.

Definition nonempty (s : string) : bool := negb (String.eqb s "").

(** [path.extname(parent) ? path.dirname(parent) : parent] *)
Definition dir_of (parent : string) : string :=
  if nonempty (Path.extname parent) then Path.dirname parent else parent.

(** [parent] defaults to the root when it is left out. *)
Definition getFullPath (filePath : string) (parent : option string) : string :=
  if Path.isAbsolute filePath then filePath
  else Path.join [dir_of (default root parent); filePath].

Definition normalizeFilePath (filePath : string) : string :=
  if JsString.startsWith filePath ("." +:+ Path.sep)
     || JsString.startsWith filePath (".." +:+ Path.sep)
     || Path.isAbsolute filePath
  then filePath
  else "." +:+ Path.sep +:+ filePath.

(** [chalk] only colours its argument. *)
Definition printModulePath (filePath : string) : string :=
  JsString.replace filePath (root +:+ Path.sep) "".

(** What every object inherits from [Object.prototype], each member with
    the text [parts.join] turns it into. *)
Definition Object_prototype : list (string * string) :=
  [ ("constructor", "function Object() { [native code] }");
    ("__defineGetter__", "function __defineGetter__() { [native code] }");
    ("__defineSetter__", "function __defineSetter__() { [native code] }");
    ("hasOwnProperty", "function hasOwnProperty() { [native code] }");
    ("__lookupGetter__", "function __lookupGetter__() { [native code] }");
    ("__lookupSetter__", "function __lookupSetter__() { [native code] }");
    ("isPrototypeOf", "function isPrototypeOf() { [native code] }");
    ("propertyIsEnumerable", "function propertyIsEnumerable() { [native code] }");
    ("toString", "function toString() { [native code] }");
    ("valueOf", "function valueOf() { [native code] }");
    ("__proto__", "[object Object]");
    ("toLocaleString", "function toLocaleString() { [native code] }") ].

Definition inherited (k : string) : option string :=
  snd <$> List.find (λ kv, String.eqb (fst kv) k) Object_prototype.

(** [this.options.alias[k]] when [k in this.options.alias]: an own key of
    the table first, an inherited member otherwise. *)
Definition alias_lookup (k : string) : option string :=
  match alias !! k with
  | Some target => Some target
  | None => inherited k
  end.

Definition replaceAlias (filePath : string) : string :=
  let parts := JsString.split filePath Path.slash in
  let firstSegment := hd "" parts in
  if String.eqb firstSegment "." || String.eqb firstSegment ".." then filePath
  else match alias_lookup firstSegment with
       | Some target => Path.join [root; JsString.join (target :: tl parts) Path.sep]
       | None => filePath
       end.

(** The [options] argument [res] builds for [require.resolve]. *)
Definition res_options (filePath parent : string) : option (list string) :=
  if Path.isAbsolute filePath then None
  else Some [getFullPath (dir_of parent) None].

(** The arguments of the [console.log] call in the [catch] branch, after
    [filter(Boolean)]. *)
Definition res_message (filePath parent : string) : list string :=
  filter (λ s, s ≠ "")
    [ "Couldn't resolve path to module";
      printModulePath filePath;
      if nonempty parent then "(required by " +:+ printModulePath parent +:+ ")" else "" ].

(** [parent] defaults to the empty string here. *)
Definition res (filePath : string) (parent : option string) : resolution :=
  let parent := default "" parent in
  match require_resolve env filePath (res_options filePath parent) with
  | Some p => Resolved p
  | None => Unresolved (res_message filePath parent)
  end.

(** [files.find(file => name === wanted && !!ext)] *)
Definition find_named (wanted : string) (files : list string) : option string :=
  List.find (λ file, String.eqb (Path.parse_name file) wanted
                     && nonempty (Path.parse_ext file)) files.

(** A throwing [readdirSync] lands in the empty [catch] block. *)
Definition probe (dir wanted : string) : option string :=
  match readdirSync env dir with
  | Some files => find_named wanted files
  | None => None
  end.

Definition resolveWithExtension (filePath : string) (parent : option string) : resolution :=
  let fullPath := getFullPath filePath parent in
  if nonempty (Path.extname filePath) then res filePath parent
  else
    let fileName := Path.basename fullPath in
    let dirName := Path.dirname fullPath in
    match probe dirName fileName with
    | Some fileWithExtension =>
        res (normalizeFilePath (Path.join [dirName; fileWithExtension])) parent
    | None =>
        match probe fullPath "index" with
        | Some indexFile =>
            res (normalizeFilePath (Path.join [filePath; indexFile])) parent
        | None => res filePath parent
        end
    end.

End resolver.
End Resolver.

(** ** The directory-scan variant ([src/index.ts], lines 1-329) *)

Module DirScan.

Definition ALWAYS_IGNORE : string := ".git|.vscode|.idea".

Record state := mkState {
  analyzeQueue : Queue.t string;
  scanQueue : Queue.t string;
  analyzedModules : JsObject.t ModuleData;
  console : list (list string)
}.

Definition initial : state :=
  mkState Queue.empty Queue.empty JsObject.empty [].

Definition set_analyzeQueue (q : Queue.t string) (st : state) : state :=
  mkState q (scanQueue st) (analyzedModules st) (console st).
Definition set_scanQueue (q : Queue.t string) (st : state) : state :=
  mkState (analyzeQueue st) q (analyzedModules st) (console st).
Definition set_analyzedModules (o : JsObject.t ModuleData) (st : state) : state :=
  mkState (analyzeQueue st) (scanQueue st) o (console st).
(** [console.log(...line)] *)
Definition log (line : list string) (st : state) : state :=
  mkState (analyzeQueue st) (scanQueue st) (analyzedModules st) (console st ++ [line]).

Section analyzer.
Variable env : NodeEnv.
Variable root : string.
Variable alias : gmap string string.
(** [this.options.ignore] *)
Variable ignore : string.

(** [res] ends the process after printing when nothing is found. *)
Definition resolved (r : resolution) : M state string :=
  λ st, match r with
        | Resolved p => Done p st
        | Unresolved line => Exited 1 (log line st)
        end.

Definition resolveFilePath (filePath parent : string) : M state string :=
  if Path.isAbsolute filePath then ret filePath
  else
    let replacedAliasFile := Resolver.replaceAlias root alias filePath in
    resolved (Resolver.resolveWithExtension env root replacedAliasFile (Some parent)).

(** [[parent, location.line, location.column].join(':')] *)
Definition fullParentPath (parent : string) (location : option (nat * nat)) : string :=
  match location with
  | Some (line, column) =>
      JsString.join [parent; JsString.of_nat line; JsString.of_nat column] ":"
  | None => parent
  end.

(** The two branches of [suspectModule] once the path is resolved. *)
Definition recordCaller (p caller : string) (o : JsObject.t ModuleData)
  : JsObject.t ModuleData :=
  match JsObject.get o p with
  | Some m => JsObject.set p (mkModuleData (hasDefaultExport m) (callers m ++ [caller])) o
  | None => JsObject.set p (mkModuleData false [caller]) o
  end.

Definition suspectModule (filePath parent : string) (location : option (nat * nat))
  : M state unit :=
  let* suspiciousModuleResolvedPath := resolveFilePath filePath parent in
  modify (λ st, set_analyzedModules
                  (recordCaller suspiciousModuleResolvedPath
                                (fullParentPath parent location) (analyzedModules st)) st).

(** The [CallExpression] visitor.  [modulePath] is whatever [value] the
    first argument has; a non-string reaches [path.isAbsolute] in
    [resolveFilePath], whose [validateString] throws before anything is
    written. *)
Definition onCallExpression (filePath : string) (callee : node) (args : list node)
    (loc : option (nat * nat)) (c : container) : M state unit :=
  let isRequireStatement :=
    match node_name callee with JString n => String.eqb n "require" | _ => false end in
  let isPlainVarDeclaration :=
    match container_id c with
    | Some i => String.eqb (node_type i) "Identifier"
    | None => false
    end in
  if negb isRequireStatement || negb isPlainVarDeclaration then ret tt
  else
    let property :=
      match container_property c with Some p => node_name p | None => JUndefined end in
    if truthy property then ret tt
    else match args with
         | [] => throw (TypeError "Cannot destructure property 'value' of 'node.arguments[0]' as it is undefined.")
         | a :: _ =>
             let* modulePath := validateString (node_value a) in
             suspectModule modulePath filePath loc
         end.

(** The [ExportDefaultDeclaration] visitor: a write through
    [this.analyzedModules[filePath]], which throws on a missing record. *)
Definition onExportDefault (filePath : string) : M state unit :=
  λ st, match JsObject.get (analyzedModules st) filePath with
        | Some m =>
            Done tt (set_analyzedModules
                       (JsObject.set filePath (mkModuleData true (callers m))
                                     (analyzedModules st)) st)
        | None => Thrown (TypeError "Cannot set properties of undefined (setting 'hasDefaultExport')") st
        end.

Definition visitor (filePath : string) (e : event) : M state unit :=
  match e with
  | EvCall callee args loc c => onCallExpression filePath callee args loc c
  | EvExportDefault => onExportDefault filePath
  | EvImport _ => ret tt
  end.

Definition traverse (ast : node) (v : event → M state unit) : M state unit :=
  forEach v (events CNone ast).

Definition analyze (filePath : string) : M state unit :=
  λ st,
    match JsObject.get (analyzedModules st) filePath with
    | Some _ => Done tt st
    | None =>
        let st1 := set_analyzedModules
                     (JsObject.set filePath new_ModuleData (analyzedModules st)) st in
        match readFileSync env filePath with
        | None => Thrown (IOError filePath) st1
        | Some source =>
            match parse env ["jsx"; "typescript"] source with
            | inl e => Thrown (Error ("Error while parsing " +:+ filePath +:+ " " +:+ e)) st1
            | inr ast => traverse ast (visitor filePath) st1
            end
        end
    end.

(** [this.ignoreRegex.test(fullPath)] *)
Definition ignored (fullPath : string) : bool :=
  regexp_test env (ignore +:+ "|" +:+ ALWAYS_IGNORE) fullPath.

(** The body of the [forEach] in [scan]. *)
Definition scanEntry (dirPath f : string) : M state unit :=
  let fullPath := Path.join [dirPath; f] in
  if ignored fullPath then ret tt
  else λ st,
    match lstat_isDirectory env fullPath with
    | None => Thrown (IOError fullPath) st
    | Some true => Done tt (set_scanQueue (Queue.push fullPath (scanQueue st)) st)
    | Some false =>
        if parseable (Path.extname fullPath)
        then Done tt (set_analyzeQueue (Queue.push fullPath (analyzeQueue st)) st)
        else Done tt st
    end.

(** [scan]: the [while] loop, unrolled at most [fuel] times. [None] when
    the fuel runs out first. *)
Fixpoint scan (fuel : nat) : M state (option unit) :=
  λ st,
    if Queue.hasItems (scanQueue st) then
      match fuel with
      | O => Done None st
      | S fuel' =>
          let '(dirPath, q) := Queue.pop (scanQueue st) in
          let st1 := set_scanQueue q st in
          match dirPath with
          | None => Thrown (TypeError "The 'path' argument must be of type string") st1
          | Some d =>
              match readdirSync env d with
              | None => Thrown (IOError d) st1
              | Some fs => (let* _ := forEach (scanEntry d) fs in scan fuel') st1
              end
          end
      end
    else Done (Some tt) st.

Definition validate : M state unit :=
  λ st, if existsSync env root then Done tt st
        else Exited 1 (log ["Couldn't find root directory"; root] st).

(** [this.ignoreRegex = new RegExp(...)]; of the message of the
    [SyntaxError] the reason the engine appends is left out. *)
Definition compileIgnore : M state unit :=
  λ st, let pattern := ignore +:+ "|" +:+ ALWAYS_IGNORE in
        if regexp_valid env pattern then Done tt st
        else Thrown (SyntaxError ("Invalid regular expression: /" +:+ pattern +:+ "/")) st.

(** [new Analyzer(root, options)] *)
Definition constructor (fuel : nat) : M state (option unit) :=
  let* _ := compileIgnore in
  let* _ := validate in
  let* _ := modify (λ st, set_scanQueue (Queue.push root (scanQueue st)) st) in
  scan fuel.

(** The [while] loop of [execute]. *)
Fixpoint drain (fuel : nat) : M state (option unit) :=
  λ st,
    if Queue.hasItems (analyzeQueue st) then
      match fuel with
      | O => Done None st
      | S fuel' =>
          let '(item, q) := Queue.pop (analyzeQueue st) in
          let st1 := set_analyzeQueue q st in
          match item with
          | None => Thrown (TypeError "The 'path' argument must be of type string") st1
          | Some filePath => (let* _ := analyze filePath in drain fuel') st1
          end
      end
    else Done (Some tt) st.

(** The [usages] array [execute] prints line by line. *)
Definition usages (o : JsObject.t ModuleData) : list string :=
  omap (λ '(analyzedModule, m),
          if hasDefaultExport m && negb (Nat.eqb (length (callers m)) 0)
          then Some ("  - " +:+ Resolver.printModulePath root analyzedModule
                     +:+ " is required by "
                     +:+ JsString.join
                           (map (λ c, Resolver.printModulePath root
                                        (JsString.join [root; c] Path.sep))
                                (callers m)) ", ")
          else None)
       (JsObject.entries o).

Definition execute (fuel : nat) : M state (option (list string)) :=
  let* r := drain fuel in
  match r with
  | None => ret None
  | Some _ => λ st, Done (Some (usages (analyzedModules st))) st
  end.

(** [new Analyzer(root, options).execute()] on a fresh process. *)
Definition run (fuel : nat) : outcome state (option (list string)) :=
  (let* r := constructor fuel in
   match r with
   | None => ret None
   | Some _ => execute fuel
   end) initial.

End analyzer.
End DirScan.

(** ** The entry-seeded variant ([src/index.ts], lines 331-662) *)

Module EntrySeeded.

Record QueueItem := mkItem { filePath : string; parent : option string }.

Record state := mkState {
  queue : Queue.t QueueItem;
  analyzedModules : gset string;
  suspiciousModules : JsObject.t ModuleData;
  console : list (list string)
}.

Definition initial : state := mkState Queue.empty ∅ JsObject.empty [].

Definition set_queue (q : Queue.t QueueItem) (st : state) : state :=
  mkState q (analyzedModules st) (suspiciousModules st) (console st).
Definition set_analyzedModules (s : gset string) (st : state) : state :=
  mkState (queue st) s (suspiciousModules st) (console st).
Definition set_suspiciousModules (o : JsObject.t ModuleData) (st : state) : state :=
  mkState (queue st) (analyzedModules st) o (console st).
(** [console.log(...line)] *)
Definition log (line : list string) (st : state) : state :=
  mkState (queue st) (analyzedModules st) (suspiciousModules st) (console st ++ [line]).

Section analyzer.
Variable env : NodeEnv.
(** [this.options.root] and [this.options.alias] *)
Variable root : string.
Variable alias : gmap string string.

Definition resolved (r : resolution) : M state string :=
  λ st, match r with
        | Resolved p => Done p st
        | Unresolved line => Exited 1 (log line st)
        end.

Definition resolveFilePath (item : QueueItem) : M state string :=
  let replacedAliasFile := Resolver.replaceAlias root alias (filePath item) in
  resolved (Resolver.resolveWithExtension env root replacedAliasFile (parent item)).

(** [markSuspiciousModule], on the registry. *)
Definition markSuspiciousModule (p : string) (o : JsObject.t ModuleData)
  : JsObject.t ModuleData :=
  match JsObject.get o p with
  | Some m => JsObject.set p (mkModuleData true (callers m)) o
  | None => o
  end.

(** The two branches of [suspectModule] once the path is resolved. *)
Definition recordCaller (p caller : string) (o : JsObject.t ModuleData)
  : JsObject.t ModuleData :=
  match JsObject.get o p with
  | Some m => JsObject.set p (mkModuleData (hasDefaultExport m) (callers m ++ [caller])) o
  | None => JsObject.set p (mkModuleData false [caller]) o
  end.

Definition suspectModule (file parent : string) : M state unit :=
  let* suspiciousModuleResolvedPath := resolveFilePath (mkItem file (Some parent)) in
  modify (λ st, set_suspiciousModules
                  (recordCaller suspiciousModuleResolvedPath parent (suspiciousModules st)) st).

(** [queueItem.parent?.includes('node_modules')] *)
Definition parent_in_node_modules (item : QueueItem) : bool :=
  match parent item with
  | Some p => JsString.includes p "node_modules"
  | None => false
  end.

Definition safePushToQueue (item : QueueItem) (st : state) : state :=
  let extension := Path.extname (filePath item) in
  if (Resolver.nonempty extension && negb (parseable extension))
     || parent_in_node_modules item
  then st
  else set_queue (Queue.push item (queue st)) st.

(** The [CallExpression] visitor.  A non-string [modulePath] reaches
    [path.extname] in [safePushToQueue], whose [validateString] throws
    before anything is written. *)
Definition onCallExpression (resolvedPath : string) (callee : node) (args : list node)
    (c : container) : M state unit :=
  let isRequireStatement :=
    match node_name callee with JString n => String.eqb n "require" | _ => false end in
  let isPlainVarDeclaration :=
    match container_id c with
    | Some i => String.eqb (node_type i) "Identifier"
    | None => false
    end in
  if negb isRequireStatement || negb isPlainVarDeclaration then ret tt
  else
    let property :=
      match container_property c with Some p => node_name p | None => JUndefined end in
    if truthy property then ret tt
    else match args with
         | [] => throw (TypeError "Cannot destructure property 'value' of 'node.arguments[0]' as it is undefined.")
         | a :: _ =>
             let* modulePath := validateString (node_value a) in
             let* _ := modify (safePushToQueue (mkItem modulePath (Some resolvedPath))) in
             suspectModule modulePath resolvedPath
         end.

Definition visitor (resolvedPath : string) (e : event) : M state unit :=
  match e with
  | EvImport source => modify (safePushToQueue (mkItem source (Some resolvedPath)))
  | EvCall callee args _ c => onCallExpression resolvedPath callee args c
  | EvExportDefault =>
      modify (λ st, set_suspiciousModules
                      (markSuspiciousModule resolvedPath (suspiciousModules st)) st)
  end.

Definition traverse (ast : node) (v : event → M state unit) : M state unit :=
  forEach v (events CNone ast).

Definition analyze (item : QueueItem) : M state unit :=
  let* resolvedPath := resolveFilePath item in
  λ st,
    if bool_decide (resolvedPath ∈ analyzedModules st)
       || negb (parseable (Path.extname resolvedPath))
    then Done tt st
    else
      match readFileSync env resolvedPath with
      | None => Thrown (IOError resolvedPath) st
      | Some source =>
          match parse env ["jsx"] source with
          | inl e => Thrown (Error ("Error while parsing " +:+ resolvedPath +:+ ": " +:+ e)) st
          | inr ast =>
              (let* _ := traverse ast (visitor resolvedPath) in
               modify (λ st', set_analyzedModules ({[resolvedPath]} ∪ analyzedModules st') st'))
                st
          end
      end.

Definition validate : M state unit :=
  λ st, if existsSync env root then Done tt st
        else Exited 1 (log ["Couldn't find root directory"; root] st).

(** [new Analyzer(entries, options)]; a single entry is the one-element
    list. *)
Definition constructor (entries : list string) : M state unit :=
  let* _ := forEach (λ entry, modify (λ st, set_queue (Queue.push (mkItem entry None) (queue st)) st))
                    entries in
  validate.

(** The [while] loop of [execute], unrolled at most [fuel] times; [None]
    when the fuel runs out first. *)
Fixpoint drain (fuel : nat) : M state (option unit) :=
  λ st,
    if Queue.hasItems (queue st) then
      match fuel with
      | O => Done None st
      | S fuel' =>
          let '(item, q) := Queue.pop (queue st) in
          let st1 := set_queue q st in
          match item with
          | None => Thrown (TypeError "Cannot destructure property 'filePath' of null") st1
          | Some i => (let* _ := analyze i in drain fuel') st1
          end
      end
    else Done (Some tt) st.

(** The [usages] array [execute] prints line by line. *)
Definition usages (o : JsObject.t ModuleData) : list string :=
  omap (λ '(suspiciousModule, m),
          if hasDefaultExport m && negb (Nat.eqb (length (callers m)) 0)
          then Some ("  - " +:+ Resolver.printModulePath root suspiciousModule
                     +:+ " is required by "
                     +:+ Resolver.printModulePath root (JsString.join (callers m) ", "))
          else None)
       (JsObject.entries o).

Definition execute (fuel : nat) : M state (option (list string)) :=
  let* r := drain fuel in
  match r with
  | None => ret None
  | Some _ => λ st, Done (Some (usages (suspiciousModules st))) st
  end.

(** [new Analyzer(entries, options).execute()] on a fresh process. *)
Definition run (entries : list string) (fuel : nat) : outcome state (option (list string)) :=
  (let* _ := constructor entries in execute fuel) initial.

End analyzer.
End EntrySeeded.

(** ** Sample projects

    A project is a list of directories and a list of files with their
    source text; [grammar] gives the tree Babel builds for each text.  The
    runtime built from it answers like Node does on a project without
    symbolic links, [package.json] files and requests for core modules,
    and on ignore patterns made of literal characters, [.], [|] and a
    leading quantifier. *)

Module Fixture.

Record project := mkProject {
  dirs : list string;
  files : list (string * string);
  grammar : list (string * node)
}.

Definition lookup_assoc {V} (k : string) (l : list (string * V)) : option V :=
  snd <$> List.find (λ kv, String.eqb (fst kv) k) l.

Definition is_file (pr : project) (p : string) : bool :=
  bool_decide (p ∈ map fst (files pr)).
Definition is_dir (pr : project) (p : string) : bool :=
  bool_decide (p ∈ dirs pr).

(** The names directly inside [d], directories and files alike. *)
Definition listing (pr : project) (d : string) : list string :=
  map Path.basename
      (filter (λ p, Path.dirname p = d ∧ p ≠ d) (dirs pr ++ map fst (files pr))).

(** [LOAD_AS_FILE] then [LOAD_AS_DIRECTORY] of Node's algorithm. *)
Definition load (pr : project) (x : string) : option string :=
  List.find (is_file pr)
    [ x; x +:+ ".js"; x +:+ ".json"; x +:+ ".node";
      Path.join [x; "index.js"]; Path.join [x; "index.json"]; Path.join [x; "index.node"] ].

(** [d], its parent, and so on up to the file system root. *)
Fixpoint ancestors (fuel : nat) (d : string) : list string :=
  match fuel with
  | O => [d]
  | S fuel' => if String.eqb (Path.dirname d) d then [d] else d :: ancestors fuel' (Path.dirname d)
  end.

Definition first_some {A B} (f : A → option B) (l : list A) : option B :=
  head (omap f l).

Definition is_relative (request : string) : bool :=
  JsString.startsWith request "./" || JsString.startsWith request "../"
  || String.eqb request "." || String.eqb request "..".

Definition resolve_from (pr : project) (request : string) (from : string) : option string :=
  if is_relative request then load pr (Path.join [from; request])
  else first_some (λ a, load pr (Path.join [a; "node_modules"; request])) (ancestors 64 from).

Definition resolve (pr : project) (request : string) (paths : option (list string))
  : option string :=
  if Path.isAbsolute request then load pr request
  else first_some (resolve_from pr request) (default [] paths).

(** A pattern made of literal characters, [.] and [|], searched anywhere
    in the subject. *)
Fixpoint match_here (pat s : list ascii) : bool :=
  match pat, s with
  | [], _ => true
  | _ :: _, [] => false
  | p :: pat', c :: s' => (Path.is_dot p || Ascii.eqb p c) && match_here pat' s'
  end.

Fixpoint match_anywhere (pat s : list ascii) : bool :=
  match_here pat s ||
  match s with
  | [] => false
  | _ :: s' => match_anywhere pat s'
  end.

Definition regexp (pattern subject : string) : bool :=
  existsb (λ alt, match_anywhere (JsString.chars alt) (JsString.chars subject))
          (JsString.split pattern "|"%char).

(** An alternative that starts with a quantifier has nothing to repeat. *)
Definition regexp_compiles (pattern : string) : bool :=
  forallb (λ alt, negb (JsString.startsWith alt "*" || JsString.startsWith alt "+"
                        || JsString.startsWith alt "?"))
          (JsString.split pattern "|"%char).

Definition env (pr : project) : NodeEnv := {|
  existsSync p := is_dir pr p || is_file pr p;
  readdirSync d := if is_dir pr d then Some (listing pr d) else None;
  lstat_isDirectory p :=
    if is_dir pr p then Some true else if is_file pr p then Some false else None;
  readFileSync p := lookup_assoc p (files pr);
  parse _ source :=
    match lookup_assoc source (grammar pr) with
    | Some ast => inr ast
    | None => inl "SyntaxError"
    end;
  require_resolve := resolve pr;
  regexp_test := regexp;
  regexp_valid := regexp_compiles
|}.

(** The project of the README: [b.js] exports a default, [c.js] requires
    it without [.default]. *)
Definition readme : project := mkProject
  ["/proj"]
  [ ("/proj/a.js", "module.exports = 1;");
    ("/proj/b.js", "export default 2;");
    ("/proj/c.js", "const b = require('./b');") ]
  [ ("module.exports = 1;", file_of [ExpressionStatement
                (AssignmentExpression
                   (MemberExpression (Identifier "module") (Identifier "exports"))
                   (NumericLiteral 1))]);
    ("export default 2;", file_of [export_default 2]);
    ("const b = require('./b');", file_of [const_require "b" "./b" (1, 10)]) ].

(** The same two modules with the requiring file listed first. *)
Definition early_caller : project := mkProject
  ["/proj"]
  [ ("/proj/a.js", "const z = require('./z');");
    ("/proj/z.js", "export default 2;") ]
  [ ("const z = require('./z');", file_of [const_require "z" "./z" (1, 10)]);
    ("export default 2;", file_of [export_default 2]) ].

(** Two files that require each other, each with a default export. *)
Definition cycle : project := mkProject
  ["/proj"]
  [ ("/proj/a.js", "export default 1; const b = require('./b');");
    ("/proj/b.js", "export default 2; const a = require('./a');") ]
  [ ("export default 1; const b = require('./b');",
     file_of [export_default 1; const_require "b" "./b" (1, 28)]);
    ("export default 2; const a = require('./a');",
     file_of [export_default 2; const_require "a" "./a" (1, 28)]) ].

(** A project file imports an installed package, whose entry file imports
    a sibling. *)
Definition dependency : project := mkProject
  ["/proj"; "/proj/node_modules"; "/proj/node_modules/lib"]
  [ ("/proj/a.js", "import lib from 'lib';");
    ("/proj/node_modules/lib/index.js", "import dep from './dep'; export default 3;");
    ("/proj/node_modules/lib/dep.js", "export default 4;") ]
  [ ("import lib from 'lib';", file_of [ImportDeclaration "lib"]);
    ("import dep from './dep'; export default 3;",
     file_of [ImportDeclaration "./dep"; export_default 3]);
    ("export default 4;", file_of [export_default 4]) ].

(** An import of a style sheet that is not there. *)
Definition stylesheet : project := mkProject
  ["/proj"]
  [ ("/proj/a.js", "import './missing.css';") ]
  [ ("import './missing.css';", file_of [ImportDeclaration "./missing.css"]) ].

(** A require of an absolute path that is not there. *)
Definition absolute_missing : project := mkProject
  ["/proj"]
  [ ("/proj/a.js", "const m = require('/nowhere/m');") ]
  [ ("const m = require('/nowhere/m');", file_of [const_require "m" "/nowhere/m" (1, 10)]) ].

(** A require whose argument is a variable. *)
Definition dynamic : project := mkProject
  ["/proj"]
  [ ("/proj/a.js", "const x = require(name);") ]
  [ ("const x = require(name);", file_of [const_require_dynamic "x" "name" (1, 10)]) ].

(** A module that requires itself. *)
Definition self_require : project := mkProject
  ["/proj"]
  [ ("/proj/a.js", "export default 1; const a = require('./a');") ]
  [ ("export default 1; const a = require('./a');",
     file_of [export_default 1; const_require "a" "./a" (1, 28)]) ].


End Fixture.

(** The state an outcome ends in. *)
Definition final {S A} (o : outcome S A) : S :=
  match o with
  | Done _ s | Exited _ s | Thrown _ s => s
  end.

(** ** The queue that counts ([size], next to the constants)

    The same class with a [size] field: [push] increments it, [pop]
    decrements it after the emptiness test. *)

Module SizedQueue.

Record t (T : Type) := mk { items : Queue.t T; size : Z }.
Arguments mk {T} _ _.
Arguments items {T} _.
Arguments size {T} _.

Section ops.
Context {T : Type}.

Definition empty : t T := mk Queue.empty 0.

Definition push (item : T) (q : t T) : t T :=
  mk (Queue.push item (items q)) (size q + 1).

Definition pop (q : t T) : option T * t T :=
  match Queue.root (items q) with
  | None => (None, q)
  | Some _ =>
      let '(r, q') := Queue.pop (items q) in
      (r, mk q' (size q - 1))
  end.

Definition hasItems (q : t T) : bool := Queue.hasItems (items q).

(** The queue a sequence of calls leaves behind. *)
Definition exec (os : list (@Queue.op T)) (q : t T) : t T :=
  foldl (λ q o, match o with
                | Queue.Push x => push x q
                | Queue.Pop => (pop q).2
                | Queue.HasItems => q
                end) q os.

(** The list FIFO after the same calls. *)
Definition model_exec (os : list (@Queue.op T)) (l : list T) : list T :=
  foldl (λ l o, (Queue.model_step o l).2) l os.

(** The queue holds [l] and counts it. *)
Definition repr (q : t T) (l : list T) : Prop :=
  Queue.repr (items q) l ∧ size q = Z.of_nat (length l).

End ops.
End SizedQueue.

(** ** The options of a run ([constants.ts] and the constructors)

    An option holds an alias table, a flag or a text; a key that is
    missing and a key set to [undefined] are the same to the constructor. *)

Module Options.

Inductive value :=
  | Alias (table : gmap string string)
  | Flag (b : bool)
  | Text (s : string).

(** [DEFAULT_OPTIONS] of the directory-scan variant *)
Definition DEFAULT_OPTIONS_scan : list (string * value) :=
  [ ("alias", Alias ∅); ("debug", Flag false); ("ignore", Text "node_modules") ].

(** [DEFAULT_OPTIONS] of the entry-seeded variant; [cwd] is
    [process.cwd()]. *)
Definition DEFAULT_OPTIONS_entries (cwd : string) : list (string * value) :=
  [ ("alias", Alias ∅); ("root", Text cwd); ("debug", Flag false) ].

(** [Object.keys(DEFAULT_OPTIONS).reduce((opts, key) => ({ ...opts, [key]:
    typeof options[k] !== 'undefined' ? options[k] : DEFAULT_OPTIONS[k] }), {})] *)
Definition merge (defaults : list (string * value)) (options : gmap string value)
  : JsObject.t value :=
  foldl (λ opts kd, JsObject.set kd.1 (default kd.2 (options !! kd.1)) opts)
        JsObject.empty defaults.

End Options.

(** ** What the analyzers keep *)

(** A record only gains: the flag is not taken back, callers are added
    behind the ones there. *)
Definition record_grows (m m' : ModuleData) : Prop :=
  (hasDefaultExport m = true → hasDefaultExport m' = true)
  ∧ callers m `prefix_of` callers m'.

(** A registry only gains: keys stay, in their order, and each record
    only gains. *)
Definition registry_grows (o o' : JsObject.t ModuleData) : Prop :=
  JsObject.keys o `prefix_of` JsObject.keys o'
  ∧ ∀ k m, JsObject.get o k = Some m →
           ∃ m', JsObject.get o' k = Some m' ∧ record_grows m m'.

(** A queue only gains at its tail, and what it gains satisfies [P]. *)
Definition queue_extends {T} (P : T → Prop) (q q' : Queue.t T) : Prop :=
  ∀ l, Queue.repr q l → ∃ l', Queue.repr q' (l ++ l') ∧ Forall P l'.

(** A computation whose final state is always [R]-related to the state it
    starts in, however it ends. *)
Definition respects {S A} (R : S → S → Prop) (m : M S A) : Prop :=
  ∀ st, R st (final (m st)).

(** What [analyze] keeps: the registry and the console only gain, the two
    queues stay as they are. *)
Definition scan_analysis_keeps (st st' : DirScan.state) : Prop :=
  registry_grows (DirScan.analyzedModules st) (DirScan.analyzedModules st')
  ∧ DirScan.console st `prefix_of` DirScan.console st'
  ∧ DirScan.analyzeQueue st' = DirScan.analyzeQueue st
  ∧ DirScan.scanQueue st' = DirScan.scanQueue st.

(** What [scan] may hand over for analysis: a file, not ignored, with a
    parseable extension. *)
Definition scannable (env : NodeEnv) (ignore : string) (p : string) : Prop :=
  DirScan.ignored env ignore p = false
  ∧ lstat_isDirectory env p = Some false
  ∧ Path.extname p ∈ PARSEABLE_EXTENSIONS.

(** What the constructor keeps: the analyze queue only gains scannable
    paths at its tail, the registry stays as it is, the console only
    gains. *)
Definition scan_keeps (env : NodeEnv) (ignore : string) (st st' : DirScan.state) : Prop :=
  queue_extends (scannable env ignore) (DirScan.analyzeQueue st) (DirScan.analyzeQueue st')
  ∧ DirScan.analyzedModules st' = DirScan.analyzedModules st
  ∧ DirScan.console st `prefix_of` DirScan.console st'.

(** An edge the entry-seeded analysis may queue: found in a file outside
    [node_modules], with no extension or a parseable one. *)
Definition edge_ok (item : EntrySeeded.QueueItem) : Prop :=
  (∃ p, EntrySeeded.parent item = Some p ∧ JsString.includes p "node_modules" = false)
  ∧ (Path.extname (EntrySeeded.filePath item) = ""
     ∨ Path.extname (EntrySeeded.filePath item) ∈ PARSEABLE_EXTENSIONS).

(** What the entry-seeded [analyze] keeps: registry, console and the set
    of analyzed files only gain, and the queue only gains edges at its
    tail. *)
Definition entry_analysis_keeps (st st' : EntrySeeded.state) : Prop :=
  registry_grows (EntrySeeded.suspiciousModules st) (EntrySeeded.suspiciousModules st')
  ∧ EntrySeeded.console st `prefix_of` EntrySeeded.console st'
  ∧ EntrySeeded.analyzedModules st ⊆ EntrySeeded.analyzedModules st'
  ∧ queue_extends edge_ok (EntrySeeded.queue st) (EntrySeeded.queue st').

(** The entry-seeded queue is the same before and after. *)
Definition queue_kept (st st' : EntrySeeded.state) : Prop :=
  EntrySeeded.queue st' = EntrySeeded.queue st.

(** * Facts *)

(** ** The path model on the paths of Node's documentation *)

Module PathExamples.
Import Path.
Example ex_extname1 : extname "index.coffee.md" = ".md". Proof. reflexivity. Qed.
Example ex_extname2 : extname "index." = ".". Proof. reflexivity. Qed.
Example ex_extname3 : extname ".index" = "". Proof. reflexivity. Qed.
Example ex_extname4 : extname "./b" = "". Proof. reflexivity. Qed.
Example ex_extname5 : extname ".." = "". Proof. reflexivity. Qed.
Example ex_extname6 : extname "/proj/a.js" = ".js". Proof. reflexivity. Qed.
Example ex_extname7 : extname "" = "". Proof. reflexivity. Qed.
Example ex_extname8 : extname "a.b/c" = "". Proof. reflexivity. Qed.
Example ex_extname9 : extname "..a" = ".a". Proof. reflexivity. Qed.
Example ex_extname10 : extname "x.." = ".". Proof. reflexivity. Qed.
Example ex_basename1 : basename "/proj/b" = "b". Proof. reflexivity. Qed.
Example ex_basename2 : basename "/a/b/" = "b". Proof. reflexivity. Qed.
Example ex_basename3 : basename "/" = "". Proof. reflexivity. Qed.
Example ex_dirname1 : dirname "/proj/a.js" = "/proj". Proof. reflexivity. Qed.
Example ex_dirname2 : dirname "/a" = "/". Proof. reflexivity. Qed.
Example ex_dirname3 : dirname "a" = ".". Proof. reflexivity. Qed.
Example ex_dirname4 : dirname "a//b" = "a/". Proof. reflexivity. Qed.
Example ex_dirname5 : dirname "//a" = "//". Proof. reflexivity. Qed.
Example ex_dirname6 : dirname "a/b/" = "a". Proof. reflexivity. Qed.
Example ex_dirname7 : dirname "ab/c" = "ab". Proof. reflexivity. Qed.
Example ex_parse1 : (parse_name "b.js", parse_ext "b.js") = ("b", ".js"). Proof. reflexivity. Qed.
Example ex_parse2 : (parse_name ".gitignore", parse_ext ".gitignore") = (".gitignore", "").
Proof. reflexivity. Qed.
Example ex_parse3 : (parse_name "/..", parse_ext "/..", extname "/..") = (".", ".", "").
Proof. reflexivity. Qed.
Example ex_parse4 : (parse_name "a/..", parse_ext "a/..") = ("..", "").
Proof. reflexivity. Qed.
Example ex_join1 : join ["/proj"; "./b"] = "/proj/b". Proof. reflexivity. Qed.
Example ex_join2 : join ["/proj"; ""] = "/proj". Proof. reflexivity. Qed.
Example ex_join3 : join ["/foo"; "bar"; "baz/asdf"; "quux"; ".."] = "/foo/bar/baz/asdf".
Proof. reflexivity. Qed.
Example ex_join4 : join ["a"; "../../b"] = "../b". Proof. reflexivity. Qed.
Example ex_join5 : join [""; ""] = ".". Proof. reflexivity. Qed.
Example ex_join6 : join ["./b"; "index.js"] = "b/index.js". Proof. reflexivity. Qed.
Example ex_split1 : JsString.split "/a/b" slash = [""; "a"; "b"]. Proof. reflexivity. Qed.
Example ex_split2 : JsString.split "" slash = [""]. Proof. reflexivity. Qed.
Example ex_replace1 : JsString.replace "/proj/a.js" "/proj/" "" = "a.js". Proof. reflexivity. Qed.
Example ex_includes1 : JsString.includes "/p/node_modules/x.js" "node_modules" = true.
Proof. reflexivity. Qed.
Example ex_of_nat : JsString.of_nat 10 = "10". Proof. reflexivity. Qed.
End PathExamples.

(** ** The linked queue refines the list FIFO *)

Section queue_facts.
Context {T : Type}.
Import Queue.
Implicit Types (h : list (Node T)) (q : Queue.t T) (l : list T).

Lemma chain_alloc h o lst l n :
  chain h o lst l → chain (h ++ [n]) o lst l.
Proof.
  revert o. induction l as [|x l IH]; intros o; simpl; [done|].
  intros (r & nx & -> & Hr & Hc & Hl).
  exists r, nx. split_and!; [done| |by apply IH|done].
  by apply lookup_app_l_Some.
Qed.

Lemma chain_last_lookup h o lst l :
  l ≠ [] → chain h o lst l → ∃ pl x, lst = Some pl ∧ h !! pl = Some (mkNode x None).
Proof.
  revert o. induction l as [|x l IH]; intros o Hne; [done|]. simpl.
  intros (r & nx & -> & Hr & Hc & Hl).
  destruct l as [|y l].
  - simpl in Hc. subst nx. exists r, x. by rewrite Hl.
  - by apply (IH nx).
Qed.

(** Linking a new cell behind the last one extends the chain by one. *)
Lemma chain_snoc h o pl l x y :
  l ≠ [] →
  h !! pl = Some (mkNode y None) →
  chain h o (Some pl) l →
  chain (set_next pl (Some (length h)) (h ++ [mkNode x None]))
        o (Some (length h)) (l ++ [x]).
Proof.
  intros Hne Hpl. revert o Hne.
  assert (Hlt : pl < length h) by (by eapply lookup_lt_Some).
  assert (Hset : set_next pl (Some (length h)) (h ++ [mkNode x None])
                 = <[pl := mkNode y (Some (length h))]> (h ++ [mkNode x None])).
  { unfold set_next. by rewrite (lookup_app_l_Some _ _ _ _ Hpl). }
  rewrite Hset.
  induction l as [|z l IH]; intros o Hne; [done|]. simpl.
  intros (r & nx & -> & Hr & Hc & Hl).
  destruct l as [|z' l].
  - simpl in Hc. subst nx. specialize (Hl eq_refl). injection Hl as ->.
    assert (z = y) as -> by congruence.
    exists r, (Some (length h)). split_and!; [done| | |by intros [=]].
    + apply list_lookup_insert_eq. rewrite length_app. simpl. lia.
    + simpl. exists (length h), None. split_and!; [done| |done|done].
      rewrite list_lookup_insert_ne by lia.
      by rewrite lookup_app_r, Nat.sub_diag by lia.
  - assert (r ≠ pl) as Hrpl.
    { intros ->. simpl in Hc. destruct Hc as (? & ? & ? & _). congruence. }
    exists r, nx. split_and!; [done| | |by intros [=]].
    + rewrite list_lookup_insert_ne by done. by apply lookup_app_l_Some.
    + by apply IH.
Qed.

Lemma repr_empty : repr (T:=T) empty [].
Proof. done. Qed.

Lemma repr_push q l x : repr q l → repr (push x q) (l ++ [x]).
Proof.
  destruct q as [h rt lst]. unfold repr, push. simpl heap. simpl root. simpl last.
  destruct l as [|y l].
  - simpl. intros ->.
    exists (length h), None. split_and!; try done.
    simpl. by rewrite lookup_app_r, Nat.sub_diag by lia.
  - intros Hc.
    destruct (chain_last_lookup _ _ _ (y :: l) ltac:(done) Hc) as (pl & z & -> & Hpl).
    pose proof Hc as Hc'. simpl in Hc'. destruct Hc' as (r & nx & -> & _).
    by eapply chain_snoc.
Qed.

Lemma repr_pop q l :
  repr q l →
  match l with
  | [] => pop q = (None, q)
  | x :: l' => ∃ q', pop q = (Some x, q') ∧ repr q' l'
  end.
Proof.
  unfold repr, pop. destruct l as [|x l]; simpl.
  - by intros ->.
  - intros (r & nx & -> & -> & Hc & Hl). simpl.
    eexists. split; [done|]. simpl.
    (* the tail of the chain keeps the same last cell *)
    clear Hl. revert Hc. generalize nx. induction l as [|y l IH]; [done|].
    simpl. intros nx' (r' & nx'' & -> & Hr' & Hc' & Hl').
    exists r', nx''. split_and!; [done|done| |done]. by apply IH.
Qed.

Lemma repr_hasItems q l :
  repr q l → hasItems q = match l with [] => false | _ => true end.
Proof.
  unfold repr, hasItems. destruct l; simpl.
  - by intros ->.
  - by intros (r & nx & -> & _).
Qed.

Lemma step_refines o q l :
  repr q l →
  ∃ q', step o q = ((model_step o l).1, q') ∧ repr q' (model_step o l).2.
Proof.
  intros Hq. destruct o as [x| |]; simpl.
  - eexists. split; [done|]. by apply repr_push.
  - pose proof (repr_pop _ _ Hq) as Hp. destruct l as [|x l].
    + rewrite Hp. by eexists.
    + destruct Hp as (q' & -> & Hq'). by eexists.
  - rewrite (repr_hasItems _ _ Hq). by eexists.
Qed.

Lemma run_refines os : ∀ q l, repr q l → run os q = model_run os l.
Proof.
  induction os as [|o os IH]; intros q l Hq; [done|]. simpl.
  destruct (step_refines o q l Hq) as (q' & -> & Hq').
  destruct (model_step o l) as [b l']. simpl in *. f_equal. by apply IH.
Qed.


End queue_facts.

(** C8: for every sequence of [push], [pop] and [hasItems] calls on a new
    queue, the linked queue answers exactly like the list FIFO: [pop]
    returns the items in the order they were pushed and [null] when
    nothing is left, [hasItems] is true exactly when a pushed item has not
    been popped yet; sequences that drain the queue and push again are
    sequences like any other. *)
Theorem queue_refines_fifo {T : Type} (os : list (@Queue.op T)) :
  Queue.run os Queue.empty = Queue.model_run os [].
Proof. apply run_refines, repr_empty. Qed.

(** Draining the queue completely and pushing again. *)
Example queue_drain_then_push :
  Queue.run [Queue.Push 1; Queue.Push 2; Queue.Pop; Queue.Pop; Queue.Pop;
             Queue.HasItems; Queue.Push 3; Queue.HasItems; Queue.Pop]
            Queue.empty
  = [Queue.OPushed; Queue.OPushed; Queue.OPopped (Some 1); Queue.OPopped (Some 2);
     Queue.OPopped None; Queue.OHasItems false; Queue.OPushed;
     Queue.OHasItems true; Queue.OPopped (Some 3)].
Proof. reflexivity. Qed.

(** ** The registry operations *)

Section registry_facts.
Implicit Types (o : JsObject.t ModuleData) (p q : string).

Lemma get_set o p q (m : ModuleData) :
  JsObject.get (JsObject.set p m o) q
  = if bool_decide (q = p) then Some m else JsObject.get o q.
Proof.
  unfold JsObject.get, JsObject.set. simpl. case_bool_decide as Hq.
  - subst q. apply lookup_insert_eq.
  - by apply lookup_insert_ne.
Qed.

Lemma get_markSuspiciousModule o p q :
  JsObject.get (EntrySeeded.markSuspiciousModule p o) q
  = if bool_decide (q = p)
    then (λ m, mkModuleData true (callers m)) <$> JsObject.get o q
    else JsObject.get o q.
Proof.
  unfold EntrySeeded.markSuspiciousModule.
  destruct (JsObject.get o p) as [m|] eqn:Hp.
  - rewrite get_set. case_bool_decide; [subst q; by rewrite Hp|done].
  - case_bool_decide; [subst q; by rewrite Hp|done].
Qed.

Lemma set_set o p (m m' : ModuleData) :
  JsObject.set p m (JsObject.set p m' o) = JsObject.set p m o.
Proof.
  unfold JsObject.set. simpl. rewrite lookup_insert_eq, insert_insert_eq.
  by destruct (JsObject.props o !! p).
Qed.

Lemma markSuspiciousModule_Some o p m :
  JsObject.get o p = Some m →
  EntrySeeded.markSuspiciousModule p o = JsObject.set p (mkModuleData true (callers m)) o.
Proof. unfold EntrySeeded.markSuspiciousModule. by intros ->. Qed.

Lemma markSuspiciousModule_None o p :
  JsObject.get o p = None → EntrySeeded.markSuspiciousModule p o = o.
Proof. unfold EntrySeeded.markSuspiciousModule. by intros ->. Qed.

Lemma markSuspiciousModule_idem o p :
  EntrySeeded.markSuspiciousModule p (EntrySeeded.markSuspiciousModule p o)
  = EntrySeeded.markSuspiciousModule p o.
Proof.
  destruct (JsObject.get o p) as [m|] eqn:Hp.
  - rewrite (markSuspiciousModule_Some _ _ _ Hp).
    erewrite markSuspiciousModule_Some; last by rewrite get_set, bool_decide_eq_true_2.
    simpl. apply set_set.
  - by rewrite !(markSuspiciousModule_None _ _ Hp).
Qed.

Lemma keys_markSuspiciousModule o p :
  JsObject.keys (EntrySeeded.markSuspiciousModule p o) = JsObject.keys o.
Proof.
  unfold EntrySeeded.markSuspiciousModule.
  destruct (JsObject.get o p) as [m|] eqn:Hp; [|done].
  unfold JsObject.get in Hp. unfold JsObject.set. simpl. by rewrite Hp.
Qed.

End registry_facts.

(** C3, on the code: in the entry-seeded variant recording a default
    export is idempotent and turns the flag on for a record that is
    there, keeping its callers, every other record and the keys; but
    [markSuspiciousModule] has no branch that creates a record, on an
    empty registry it does nothing, where its sibling [suspectModule]
    creates one.  A run on the single entry [b.js], which exports a
    default, analyzes the file and ends with an empty registry: the export
    is forgotten.  The directory-scan [analyze] creates the record before
    it traverses the file, and the same file ends with its flag set. *)
Theorem default_export_without_record_is_lost (p caller : string) :
  (∀ o : JsObject.t ModuleData,
     EntrySeeded.markSuspiciousModule p (EntrySeeded.markSuspiciousModule p o)
     = EntrySeeded.markSuspiciousModule p o
     ∧ JsObject.keys (EntrySeeded.markSuspiciousModule p o) = JsObject.keys o
     ∧ ∀ q, JsObject.get (EntrySeeded.markSuspiciousModule p o) q
            = if bool_decide (q = p)
              then (λ m, mkModuleData true (callers m)) <$> JsObject.get o q
              else JsObject.get o q)
  ∧ EntrySeeded.markSuspiciousModule p JsObject.empty = JsObject.empty
  ∧ JsObject.entries (EntrySeeded.recordCaller p caller JsObject.empty)
    = [(p, mkModuleData false [caller])]
  ∧ (∃ st, EntrySeeded.run (Fixture.env Fixture.readme) "/proj" ∅ ["./b.js"] 1
           = Done (Some []) st
           ∧ EntrySeeded.analyzedModules st = {[ "/proj/b.js" ]}
           ∧ JsObject.entries (EntrySeeded.suspiciousModules st) = [])
  ∧ JsObject.entries
      (DirScan.analyzedModules
         (final (DirScan.analyze (Fixture.env Fixture.readme) "/proj" ∅ "/proj/b.js"
                   DirScan.initial)))
    = [("/proj/b.js", mkModuleData true [])].
Proof.
  split_and!.
  - intros o. split_and!.
    + apply markSuspiciousModule_idem.
    + apply keys_markSuspiciousModule.
    + apply get_markSuspiciousModule.
  - reflexivity.
  - unfold EntrySeeded.recordCaller, JsObject.entries, JsObject.set, JsObject.get.
    simpl. rewrite lookup_empty. simpl. by rewrite lookup_insert_eq.
  - eexists. split_and!; [vm_compute; reflexivity| |reflexivity].
    vm_compute. reflexivity.
  - reflexivity.
Qed.

(** ** Absolute specifiers *)

Lemma split_absolute (spec : string) :
  Path.isAbsolute spec = true → hd "" (JsString.split spec Path.slash) = "".
Proof.
  destruct spec as [|c s]; [done|]. unfold Path.isAbsolute, Path.is_slash.
  intros Hc. unfold JsString.split. simpl. by rewrite Hc.
Qed.

Lemma replaceAlias_absolute root (alias : gmap string string) (spec : string) :
  Path.isAbsolute spec = true → alias !! "" = None →
  Resolver.replaceAlias root alias spec = spec.
Proof.
  intros Habs Hal. unfold Resolver.replaceAlias, Resolver.alias_lookup.
  rewrite (split_absolute _ Habs). simpl. by rewrite Hal.
Qed.

(** C5, as the code has it: the directory-scan variant hands an absolute
    specifier back untouched, without consulting the file system; the
    entry-seeded variant sends it through [replaceAlias], which leaves it
    alone unless an alias is keyed by the empty first segment, and then
    through extension resolution, where no parent directory is joined in
    front of it. *)
Theorem absolute_specifier_routing (env : NodeEnv) (root : string)
    (alias : gmap string string) (spec : string) (parent : option string) :
  Path.isAbsolute spec = true →
  (∀ file st, DirScan.resolveFilePath env root alias spec file st = Done spec st)
  ∧ (alias !! "" = None →
     EntrySeeded.resolveFilePath env root alias (EntrySeeded.mkItem spec parent)
     = EntrySeeded.resolved (Resolver.resolveWithExtension env root spec parent))
  ∧ Resolver.getFullPath root spec parent = spec.
Proof.
  intros Habs. split_and!.
  - intros file st. unfold DirScan.resolveFilePath. by rewrite Habs.
  - intros Hal. unfold EntrySeeded.resolveFilePath. simpl.
    by rewrite replaceAlias_absolute.
  - unfold Resolver.getFullPath. by rewrite Habs.
Qed.

Lemma absolute_specifier_routing_witness :
  Path.isAbsolute "/proj/b" = true
  ∧ (∀ file st, DirScan.resolveFilePath (Fixture.env Fixture.readme) "/proj" ∅ "/proj/b" file st
                = Done "/proj/b" st)
  ∧ EntrySeeded.resolveFilePath (Fixture.env Fixture.readme) "/proj" ∅
      (EntrySeeded.mkItem "/proj/b" (Some "/proj/c.js"))
    = EntrySeeded.resolved
        (Resolver.resolveWithExtension (Fixture.env Fixture.readme) "/proj" "/proj/b"
                                       (Some "/proj/c.js"))
  ∧ Resolver.getFullPath "/proj" "/proj/b" (Some "/proj/c.js") = "/proj/b".
Proof.
  split; [reflexivity|].
  destruct (absolute_specifier_routing (Fixture.env Fixture.readme) "/proj" ∅ "/proj/b"
              (Some "/proj/c.js") eq_refl) as (Hscan & Hentry & Hfull).
  split_and!; [exact Hscan|exact (Hentry eq_refl)|exact Hfull].
Defined.

(** C5 as stated fails in the directory-scan variant: [/proj/b] comes back
    as it is, although extension resolution finds [/proj/b.js]. *)
Lemma absolute_specifier_untouched :
  DirScan.resolveFilePath (Fixture.env Fixture.readme) "/proj" ∅ "/proj/b" "/proj/c.js"
                          DirScan.initial
  = Done "/proj/b" DirScan.initial
  ∧ Resolver.resolveWithExtension (Fixture.env Fixture.readme) "/proj" "/proj/b"
                                  (Some "/proj/c.js")
    = Resolved "/proj/b.js".
Proof. split; reflexivity. Qed.

(** ** What [safePushToQueue] lets through *)

Lemma safePushToQueue_pushes (item : EntrySeeded.QueueItem) (st : EntrySeeded.state) :
  EntrySeeded.parent_in_node_modules item = false →
  Path.extname (EntrySeeded.filePath item) = ""
    ∨ parseable (Path.extname (EntrySeeded.filePath item)) = true →
  EntrySeeded.queue (EntrySeeded.safePushToQueue item st)
  = Queue.push item (EntrySeeded.queue st).
Proof.
  intros Hp Hext. unfold EntrySeeded.safePushToQueue. rewrite Hp.
  destruct Hext as [-> | ->]; [done|]. by rewrite andb_false_r.
Qed.

(** C9, as the code has it: an import or require edge is kept out of the
    queue when the path of the file it was found in contains
    [node_modules]; where the file the edge leads to is located plays no
    part. *)
Theorem safePushToQueue_skips_dependency_parents
    (item : EntrySeeded.QueueItem) (p : string) (st : EntrySeeded.state) :
  EntrySeeded.parent item = Some p →
  JsString.includes p "node_modules" = true →
  EntrySeeded.safePushToQueue item st = st.
Proof.
  intros Hp Hin. unfold EntrySeeded.safePushToQueue, EntrySeeded.parent_in_node_modules.
  by rewrite Hp, Hin, orb_true_r.
Qed.

Lemma safePushToQueue_skips_dependency_parents_witness :
  EntrySeeded.safePushToQueue
    (EntrySeeded.mkItem "./dep" (Some "/proj/node_modules/lib/index.js"))
    EntrySeeded.initial
  = EntrySeeded.initial.
Proof.
  apply (safePushToQueue_skips_dependency_parents
           (EntrySeeded.mkItem "./dep" (Some "/proj/node_modules/lib/index.js"))
           "/proj/node_modules/lib/index.js" EntrySeeded.initial);
    reflexivity.
Defined.

(** C9 as stated fails: [import lib from 'lib'] in [/proj/a.js] leads to a
    file inside [node_modules]; the edge is enqueued and the file is
    analyzed. *)
Lemma dependency_file_is_enqueued :
  let item := EntrySeeded.mkItem "lib" (Some "/proj/a.js") in
  let env := Fixture.env Fixture.dependency in
  EntrySeeded.resolveFilePath env "/proj" ∅ item EntrySeeded.initial
    = Done "/proj/node_modules/lib/index.js" EntrySeeded.initial
  ∧ JsString.includes "/proj/node_modules/lib/index.js" "node_modules" = true
  ∧ (Queue.pop (EntrySeeded.queue (EntrySeeded.safePushToQueue item EntrySeeded.initial))).1
    = Some item
  ∧ "/proj/node_modules/lib/index.js"
      ∈ EntrySeeded.analyzedModules (final (EntrySeeded.run env "/proj" ∅ ["./a.js"] 2)).
Proof.
  split_and!; [reflexivity|reflexivity|reflexivity|].
  apply (bool_decide_unpack _). vm_compute. exact I.
Qed.

(** ** Resolution failures *)

Section resolution_facts.
Variable env : NodeEnv.
Variable root : string.

Lemma resolveWithExtension_ends_in_res (f : string) (parent : option string) :
  ∃ q, Resolver.resolveWithExtension env root f parent = Resolver.res env root q parent.
Proof.
  unfold Resolver.resolveWithExtension.
  destruct (Resolver.nonempty (Path.extname f)); [by eexists|].
  destruct (Resolver.probe env _ _); [by eexists|].
  destruct (Resolver.probe env _ _); by eexists.
Qed.

(** What [resolveWithExtension] can end in. *)
Lemma resolveWithExtension_outcome (f : string) (parent : option string) :
  match Resolver.resolveWithExtension env root f parent with
  | Resolved p =>
      ∃ q, require_resolve env q (Resolver.res_options root q (default "" parent)) = Some p
  | Unresolved line =>
      ∃ q, require_resolve env q (Resolver.res_options root q (default "" parent)) = None
           ∧ line = Resolver.res_message root q (default "" parent)
  end.
Proof.
  destruct (resolveWithExtension_ends_in_res f parent) as [q ->].
  unfold Resolver.res.
  destruct (require_resolve env q _) eqn:Hq; eauto.
Qed.

Lemma res_message_head (q parent : string) :
  ∃ rest, Resolver.res_message root q parent = "Couldn't resolve path to module" :: rest.
Proof. unfold Resolver.res_message. rewrite filter_cons_True by done. by eexists. Qed.

End resolution_facts.

(** C7, as the code has it: a specifier that reaches the resolver either
    comes back as a path [require.resolve] returned, or the final
    direct-resolution step fails, [res] prints "Couldn't resolve path to
    module", the path it was given and, when there is one, the referencing
    file, and the process exits with status 1.  Every entry-seeded queue
    item and every non-absolute specifier of the directory-scan variant
    reaches the resolver; an absolute specifier of the directory-scan
    variant is handed back without being resolved. *)
Theorem unresolved_specifier_is_fatal (env : NodeEnv) (root : string)
    (alias : gmap string string) (spec : string) (parent : option string) (file : string) :
  (∀ st, match EntrySeeded.resolveFilePath env root alias (EntrySeeded.mkItem spec parent) st with
         | Done p st' =>
             st' = st
             ∧ ∃ q, require_resolve env q (Resolver.res_options root q (default "" parent))
                    = Some p
         | Exited code st' =>
             code = 1%Z
             ∧ ∃ q, require_resolve env q (Resolver.res_options root q (default "" parent))
                    = None
                    ∧ st' = EntrySeeded.log (Resolver.res_message root q (default "" parent)) st
         | Thrown _ _ => False
         end)
  ∧ (∀ st, match DirScan.resolveFilePath env root alias spec file st with
           | Done p st' =>
               st' = st
               ∧ ((Path.isAbsolute spec = true ∧ p = spec)
                  ∨ ∃ q, require_resolve env q (Resolver.res_options root q file) = Some p)
           | Exited code st' =>
               code = 1%Z
               ∧ ∃ q, require_resolve env q (Resolver.res_options root q file) = None
                      ∧ st' = DirScan.log (Resolver.res_message root q file) st
           | Thrown _ _ => False
           end)
  ∧ (∀ q f, ∃ rest,
        Resolver.res_message root q f = "Couldn't resolve path to module" :: rest).
Proof.
  split_and!.
  - intros st. unfold EntrySeeded.resolveFilePath. simpl.
    pose proof (resolveWithExtension_outcome env root
                  (Resolver.replaceAlias root alias spec) parent) as H.
    destruct (Resolver.resolveWithExtension _ _ _ _); simpl.
    + by split.
    + split; [done|]. destruct H as (q & Hq & ->). by exists q.
  - intros st. unfold DirScan.resolveFilePath.
    destruct (Path.isAbsolute spec) eqn:Habs; simpl.
    { split; [done|]. by left. }
    pose proof (resolveWithExtension_outcome env root
                  (Resolver.replaceAlias root alias spec) (Some file)) as H.
    destruct (Resolver.resolveWithExtension _ _ _ _); simpl.
    + split; [done|]. by right.
    + split; [done|]. destruct H as (q & Hq & ->). by exists q.
  - intros q f. apply res_message_head.
Qed.

(** C7 as stated fails: an import of a style sheet that is not there is
    dropped by [safePushToQueue] and the entry-seeded run completes without
    a word, although resolving the edge would have failed; and the
    directory-scan run records a caller for an absolute path that nothing
    resolves. *)
Lemma unresolved_edges_pass_silently :
  (∃ st, EntrySeeded.run (Fixture.env Fixture.stylesheet) "/proj" ∅ ["./a.js"] 1
         = Done (Some []) st
         ∧ EntrySeeded.console st = [])
  ∧ (∃ st', EntrySeeded.resolveFilePath (Fixture.env Fixture.stylesheet) "/proj" ∅
              (EntrySeeded.mkItem "./missing.css" (Some "/proj/a.js")) EntrySeeded.initial
            = Exited 1 st')
  ∧ (∃ st, DirScan.run (Fixture.env Fixture.absolute_missing) "/proj" ∅ "node_modules" 1
           = Done (Some []) st
           ∧ DirScan.console st = []
           ∧ JsObject.get (DirScan.analyzedModules st) "/nowhere/m"
             = Some (mkModuleData false ["/proj/a.js:1:10"]))
  ∧ require_resolve (Fixture.env Fixture.absolute_missing) "/nowhere/m" None = None.
Proof.
  split_and!.
  - eexists. split; [vm_compute; reflexivity|reflexivity].
  - eexists. vm_compute. reflexivity.
  - eexists. split_and!; [vm_compute; reflexivity|reflexivity|reflexivity].
  - reflexivity.
Qed.

(** ** Entry files that cannot be resolved *)

Section entry_facts.
Variable env : NodeEnv.
Variable root : string.
Variable alias : gmap string string.

Lemma enqueue_entries (entries : list string) :
  ∀ (st : EntrySeeded.state) (l : list EntrySeeded.QueueItem),
    Queue.repr (EntrySeeded.queue st) l →
    ∃ st', forEach (λ entry, modify (λ st, EntrySeeded.set_queue
                      (Queue.push (EntrySeeded.mkItem entry None) (EntrySeeded.queue st)) st))
                   entries st = Done tt st'
           ∧ Queue.repr (EntrySeeded.queue st')
                        (l ++ map (λ e, EntrySeeded.mkItem e None) entries)
           ∧ EntrySeeded.console st' = EntrySeeded.console st.
Proof.
  induction entries as [|e entries IH]; intros st l Hq; simpl.
  - exists st. by rewrite app_nil_r.
  - unfold bind, modify at 1.
    destruct (IH (EntrySeeded.set_queue
                    (Queue.push (EntrySeeded.mkItem e None) (EntrySeeded.queue st)) st)
                 (l ++ [EntrySeeded.mkItem e None])) as (st' & Hrun & Hq' & Hc).
    { simpl. by apply repr_push. }
    exists st'. split_and!; [done| |done].
    by rewrite <- app_assoc in Hq'.
Qed.

Lemma constructor_validates_root_only (entries : list string) :
  existsSync env root = true →
  ∃ st, EntrySeeded.constructor env root entries EntrySeeded.initial = Done tt st
        ∧ Queue.repr (EntrySeeded.queue st) (map (λ e, EntrySeeded.mkItem e None) entries)
        ∧ EntrySeeded.console st = [].
Proof.
  intros Hroot. unfold EntrySeeded.constructor, bind.
  destruct (enqueue_entries entries EntrySeeded.initial []) as (st & Hrun & Hq & Hc);
    [done|].
  rewrite Hrun.
  unfold EntrySeeded.validate. rewrite Hroot. by exists st.
Qed.

Lemma constructor_missing_root (entries : list string) :
  existsSync env root = false →
  ∃ st, EntrySeeded.constructor env root entries EntrySeeded.initial = Exited 1 st
        ∧ EntrySeeded.console st = [["Couldn't find root directory"; root]].
Proof.
  intros Hroot. unfold EntrySeeded.constructor, bind.
  destruct (enqueue_entries entries EntrySeeded.initial []) as (st & Hrun & Hq & Hc);
    [done|].
  rewrite Hrun.
  unfold EntrySeeded.validate. rewrite Hroot. eexists. split; [done|].
  simpl. by rewrite Hc.
Qed.

Lemma analyze_unresolved (e : string) (parent : option string) (line : list string)
    (st : EntrySeeded.state) :
  Resolver.resolveWithExtension env root (Resolver.replaceAlias root alias e) parent
    = Unresolved line →
  EntrySeeded.analyze env root alias (EntrySeeded.mkItem e parent) st
  = Exited 1 (EntrySeeded.log line st).
Proof.
  intros H. unfold EntrySeeded.analyze, bind, EntrySeeded.resolveFilePath. simpl.
  by rewrite H.
Qed.

End entry_facts.

(** C10: in the entry-seeded variant the constructor succeeds as soon as
    the root directory exists, whatever the entries are; an entry whose
    resolution chain is exhausted ends the run when it is analyzed, with
    the line "Couldn't resolve path to module" and the path on the console
    and exit status 1, and nothing about the root directory is printed. *)
Theorem missing_entry_fails_in_resolution (env : NodeEnv) (root : string)
    (alias : gmap string string) (e : string) (rest : list string) (fuel : nat)
    (line : list string) :
  existsSync env root = true →
  Resolver.resolveWithExtension env root (Resolver.replaceAlias root alias e) None
    = Unresolved line →
  (∀ entries, ∃ st,
      EntrySeeded.constructor env root entries EntrySeeded.initial = Done tt st
      ∧ EntrySeeded.console st = [])
  ∧ (∀ st, EntrySeeded.analyze env root alias (EntrySeeded.mkItem e None) st
           = Exited 1 (EntrySeeded.log line st))
  ∧ (∃ st', EntrySeeded.run env root alias (e :: rest) (S fuel) = Exited 1 st'
            ∧ EntrySeeded.console st' = [line])
  ∧ (∃ q, line = "Couldn't resolve path to module"
                 :: filter (λ s, s ≠ "") [Resolver.printModulePath root q]).
Proof.
  intros Hroot Hres. split_and!.
  - intros entries.
    destruct (constructor_validates_root_only env root entries Hroot) as (st & ? & _ & ?).
    by exists st.
  - intros st. by apply analyze_unresolved.
  - destruct (constructor_validates_root_only env root (e :: rest) Hroot)
      as (st & Hctor & Hq & Hc).
    unfold EntrySeeded.run, bind. rewrite Hctor.
    unfold EntrySeeded.execute, bind. simpl.
    rewrite (repr_hasItems _ _ Hq). simpl.
    destruct (repr_pop _ _ Hq) as (q' & -> & _).
    unfold bind. rewrite (analyze_unresolved env root alias e None line _ Hres).
    eexists. split; [done|]. simpl. by rewrite Hc.
  - pose proof (resolveWithExtension_outcome env root
                  (Resolver.replaceAlias root alias e) None) as H.
    rewrite Hres in H. destruct H as (q & _ & ->). exists q.
    unfold Resolver.res_message. simpl. rewrite filter_cons_True by done. f_equal.
Qed.

Lemma missing_entry_fails_in_resolution_witness :
  (∀ entries, ∃ st,
      EntrySeeded.constructor (Fixture.env Fixture.readme) "/proj" entries EntrySeeded.initial
        = Done tt st
      ∧ EntrySeeded.console st = [])
  ∧ (∀ st, EntrySeeded.analyze (Fixture.env Fixture.readme) "/proj" ∅
             (EntrySeeded.mkItem "./missing.js" None) st
           = Exited 1 (EntrySeeded.log ["Couldn't resolve path to module"; "./missing.js"] st))
  ∧ (∃ st', EntrySeeded.run (Fixture.env Fixture.readme) "/proj" ∅
              ["./missing.js"; "./b.js"] 1
            = Exited 1 st'
            ∧ EntrySeeded.console st' = [["Couldn't resolve path to module"; "./missing.js"]])
  ∧ (∃ q, ["Couldn't resolve path to module"; "./missing.js"]
          = "Couldn't resolve path to module"
              :: filter (λ s, s ≠ "") [Resolver.printModulePath "/proj" q]).
Proof.
  apply (missing_entry_fails_in_resolution (Fixture.env Fixture.readme) "/proj" ∅
           "./missing.js" ["./b.js"] 0 ["Couldn't resolve path to module"; "./missing.js"]);
    reflexivity.
Defined.

(** ** Which call sites are recorded *)

Section call_sites.
Variable env : NodeEnv.
Variable root : string.
Variable alias : gmap string string.





End call_sites.

Section visits.
Variable env : NodeEnv.
Variable root : string.
Variable alias : gmap string string.






End visits.

(** In the project of the README the call site of [c.js] is recorded. *)
Example plain_require_is_recorded :
  JsObject.get
    (DirScan.analyzedModules
       (final (forEach (DirScan.visitor (Fixture.env Fixture.readme) "/proj" ∅ "/proj/c.js")
                       (events CNone (const_require "b" "./b" (1, 10)))
                       DirScan.initial)))
    "/proj/b.js"
  = Some (mkModuleData false ["/proj/c.js:1:10"]).
Proof. reflexivity. Qed.

(** C6, on the code: [const x = require(y)] passes both tests of the
    visitor; the [value] of the identifier argument is undefined and the
    first [path] function it is given to throws a [TypeError], which ends
    the run of either variant. *)
Theorem dynamic_require_throws (env : NodeEnv) (root : string)
    (alias : gmap string string) (x y : string) (loc : nat * nat) (c : container)
    (file : string) :
  (∀ st, forEach (DirScan.visitor env root alias file)
                 (events c (const_require_dynamic x y loc)) st
         = Thrown (TypeError "The 'path' argument must be of type string") st)
  ∧ (∀ st, forEach (EntrySeeded.visitor env root alias file)
                   (events c (const_require_dynamic x y loc)) st
           = Thrown (TypeError "The 'path' argument must be of type string") st)
  ∧ (∃ st, DirScan.run (Fixture.env Fixture.dynamic) "/proj" ∅ "node_modules" 1
           = Thrown (TypeError "The 'path' argument must be of type string") st)
  ∧ (∃ st, EntrySeeded.run (Fixture.env Fixture.dynamic) "/proj" ∅ ["./a.js"] 1
           = Thrown (TypeError "The 'path' argument must be of type string") st).
Proof.
  split_and!.
  - intros st. reflexivity.
  - intros st. reflexivity.
  - eexists. vm_compute. reflexivity.
  - eexists. vm_compute. reflexivity.
Qed.

(** ** The drain loops finish, and more fuel changes nothing *)

Section fuel_facts.
Variable env : NodeEnv.
Variable root : string.
Variable alias : gmap string string.
Variable ignore : string.

Lemma scan_more (k : nat) :
  ∀ st st', DirScan.scan env ignore k st = Done (Some tt) st' →
            ∀ n, DirScan.scan env ignore (k + n) st = Done (Some tt) st'.
Proof.
  induction k as [|k IH]; intros st st' H n.
  - simpl in H. destruct (Queue.hasItems (DirScan.scanQueue st)) eqn:E; [done|].
    destruct n; simpl; by rewrite E.
  - simpl in *. destruct (Queue.hasItems (DirScan.scanQueue st)); [|done].
    destruct (Queue.pop (DirScan.scanQueue st)) as [[d|] q]; [|done].
    destruct (readdirSync env d); [|done].
    unfold bind in *. destruct (forEach _ _ _); eauto.
Qed.

Lemma dirscan_drain_more (k : nat) :
  ∀ st st', DirScan.drain env root alias k st = Done (Some tt) st' →
            ∀ n, DirScan.drain env root alias (k + n) st = Done (Some tt) st'.
Proof.
  induction k as [|k IH]; intros st st' H n.
  - simpl in H. destruct (Queue.hasItems (DirScan.analyzeQueue st)) eqn:E; [done|].
    destruct n; simpl; by rewrite E.
  - simpl in *. destruct (Queue.hasItems (DirScan.analyzeQueue st)); [|done].
    destruct (Queue.pop (DirScan.analyzeQueue st)) as [[f|] q]; [|done].
    unfold bind in *. destruct (DirScan.analyze _ _ _ _ _); eauto.
Qed.

Lemma dirscan_run_more (k : nat) (report : list string) (st : DirScan.state) :
  DirScan.run env root alias ignore k = Done (Some report) st →
  ∀ n, DirScan.run env root alias ignore (k + n) = Done (Some report) st.
Proof.
  unfold DirScan.run, DirScan.constructor, bind. intros H n.
  destruct (DirScan.compileIgnore env ignore DirScan.initial) as [[] s| |]; [|done..].
  destruct (DirScan.validate env root s) as [[] s0| |]; [|done..].
  destruct (modify _ s0) as [[] s1| |]; [|done..].
  destruct (DirScan.scan env ignore k s1) as [[[]|] s2| |] eqn:Hscan; [|done..].
  rewrite (scan_more _ _ _ Hscan n).
  unfold DirScan.execute, bind in *.
  destruct (DirScan.drain env root alias k s2) as [[[]|] s3| |] eqn:Hdrain; [|done..].
  by rewrite (dirscan_drain_more _ _ _ Hdrain n).
Qed.

Lemma entry_drain_more (k : nat) :
  ∀ st st', EntrySeeded.drain env root alias k st = Done (Some tt) st' →
            ∀ n, EntrySeeded.drain env root alias (k + n) st = Done (Some tt) st'.
Proof.
  induction k as [|k IH]; intros st st' H n.
  - simpl in H. destruct (Queue.hasItems (EntrySeeded.queue st)) eqn:E; [done|].
    destruct n; simpl; by rewrite E.
  - simpl in *. destruct (Queue.hasItems (EntrySeeded.queue st)); [|done].
    destruct (Queue.pop (EntrySeeded.queue st)) as [[i|] q]; [|done].
    unfold bind in *. destruct (EntrySeeded.analyze _ _ _ _ _); eauto.
Qed.

Lemma entry_run_more (entries : list string) (k : nat) (report : list string)
    (st : EntrySeeded.state) :
  EntrySeeded.run env root alias entries k = Done (Some report) st →
  ∀ n, EntrySeeded.run env root alias entries (k + n) = Done (Some report) st.
Proof.
  unfold EntrySeeded.run, bind. intros H n.
  destruct (EntrySeeded.constructor env root entries EntrySeeded.initial)
    as [[] s0| |]; [|done..].
  unfold EntrySeeded.execute, bind in *.
  destruct (EntrySeeded.drain env root alias k s0) as [[[]|] s1| |] eqn:Hdrain; [|done..].
  by rewrite (entry_drain_more _ _ _ Hdrain n).
Qed.

End fuel_facts.

(** ** The order of discovery *)

(** [analyze] does nothing on a path that has a record, whoever made it:
    a record [suspectModule] created counts as a visit. *)
Lemma analyze_skips_recorded (env : NodeEnv) (root : string) (alias : gmap string string)
    (f : string) (m : ModuleData) (st : DirScan.state) :
  JsObject.get (DirScan.analyzedModules st) f = Some m →
  DirScan.analyze env root alias f st = Done tt st.
Proof. unfold DirScan.analyze. by intros ->. Qed.

(** C1, on the code: in the project of the README the final record of
    [b.js] depends on the order of discovery.  Directory-scan variant:
    analyzing [b.js] before [c.js] gives [hasDefaultExport] true with the
    caller, analyzing [c.js] first makes [analyze] return at once on
    [b.js] and the flag stays false.  Entry-seeded variant: with [c.js]
    ahead of [b.js] the flag is set, with [b.js] ahead
    [markSuspiciousModule] finds no record and the flag stays false.  The
    run over [a.js] requiring [z.js] reports nothing. *)
Theorem discovery_order_changes_the_record :
  let env := Fixture.env Fixture.readme in
  (∃ st, bind (DirScan.analyze env "/proj" ∅ "/proj/b.js")
              (λ _, DirScan.analyze env "/proj" ∅ "/proj/c.js") DirScan.initial
         = Done tt st
         ∧ JsObject.get (DirScan.analyzedModules st) "/proj/b.js"
           = Some (mkModuleData true ["/proj/c.js:1:10"]))
  ∧ (∃ st, bind (DirScan.analyze env "/proj" ∅ "/proj/c.js")
                (λ _, DirScan.analyze env "/proj" ∅ "/proj/b.js") DirScan.initial
           = Done tt st
           ∧ JsObject.get (DirScan.analyzedModules st) "/proj/b.js"
             = Some (mkModuleData false ["/proj/c.js:1:10"]))
  ∧ (∃ st, EntrySeeded.run env "/proj" ∅ ["./c.js"; "./b.js"] 3
           = Done (Some ["  - b.js is required by c.js"]) st
           ∧ JsObject.get (EntrySeeded.suspiciousModules st) "/proj/b.js"
             = Some (mkModuleData true ["/proj/c.js"]))
  ∧ (∃ st, EntrySeeded.run env "/proj" ∅ ["./b.js"; "./c.js"] 3 = Done (Some []) st
           ∧ JsObject.get (EntrySeeded.suspiciousModules st) "/proj/b.js"
             = Some (mkModuleData false ["/proj/c.js"]))
  ∧ (∃ st, DirScan.run env "/proj" ∅ "node_modules" 3
           = Done (Some ["  - b.js is required by /proj/c.js:1:10"]) st)
  ∧ (∃ st, DirScan.run (Fixture.env Fixture.early_caller) "/proj" ∅ "node_modules" 2
           = Done (Some []) st
           ∧ JsObject.get (DirScan.analyzedModules st) "/proj/z.js"
             = Some (mkModuleData false ["/proj/a.js:1:10"])).
Proof.
  simpl. split_and!.
  - eexists. split; [vm_compute; reflexivity|reflexivity].
  - eexists. split; [vm_compute; reflexivity|reflexivity].
  - eexists. split; [vm_compute; reflexivity|reflexivity].
  - eexists. split; [vm_compute; reflexivity|reflexivity].
  - eexists. vm_compute; reflexivity.
  - eexists. split; [vm_compute; reflexivity|reflexivity].
Qed.

(** ** Two files that require each other *)

(** C4, on the code: on the two-file cycle both drain loops finish,
    whatever fuel is left over.  The directory-scan run reports no module:
    [b.js] got its record from the require in [a.js], so [analyze] returns
    at once on it.  The entry-seeded run reports [b.js] alone: [a.js] was
    analyzed before anything required it. *)
Theorem cycle_terminates_with_partial_report (n : nat) :
  let env := Fixture.env Fixture.cycle in
  (∃ st, DirScan.run env "/proj" ∅ "node_modules" (2 + n) = Done (Some []) st
         ∧ JsObject.entries (DirScan.analyzedModules st)
           = [ ("/proj/a.js", mkModuleData true []);
               ("/proj/b.js", mkModuleData false ["/proj/a.js:1:28"]) ])
  ∧ (∃ st, EntrySeeded.run env "/proj" ∅ ["./a.js"] (3 + n)
           = Done (Some ["  - b.js is required by a.js"]) st
           ∧ JsObject.entries (EntrySeeded.suspiciousModules st)
             = [ ("/proj/b.js", mkModuleData true ["/proj/a.js"]);
                 ("/proj/a.js", mkModuleData false ["/proj/b.js"]) ]).
Proof.
  cbv zeta. split.
  - eexists. split.
    + apply (dirscan_run_more _ _ _ _ 2). vm_compute. reflexivity.
    + reflexivity.
  - eexists. split.
    + apply (entry_run_more _ _ _ _ 3). vm_compute. reflexivity.
    + reflexivity.
Qed.

(** A module that requires itself: both runs finish. *)
Example self_require_terminates (n : nat) :
  (∃ st, DirScan.run (Fixture.env Fixture.self_require) "/proj" ∅ "node_modules" (1 + n)
         = Done (Some ["  - a.js is required by /proj/a.js:1:28"]) st)
  ∧ (∃ st, EntrySeeded.run (Fixture.env Fixture.self_require) "/proj" ∅ ["./a.js"] (2 + n)
           = Done (Some []) st).
Proof.
  split.
  - eexists. apply (dirscan_run_more _ _ _ _ 1). vm_compute. reflexivity.
  - eexists. apply (entry_run_more _ _ _ _ 2). vm_compute. reflexivity.
Qed.

(** * Further facts about the code *)

(** ** The queue with a size *)

Section sized_queue_facts.
Context {T : Type}.

Lemma sized_repr_push (q : SizedQueue.t T) (l : list T) (x : T) :
  SizedQueue.repr q l → SizedQueue.repr (SizedQueue.push x q) (l ++ [x]).
Proof.
  intros [Hq Hs]. split; simpl.
  - by apply repr_push.
  - rewrite length_app. simpl. lia.
Qed.

Lemma sized_repr_pop (q : SizedQueue.t T) (l : list T) :
  SizedQueue.repr q l →
  (SizedQueue.pop q).1 = head l ∧ SizedQueue.repr (SizedQueue.pop q).2 (tail l).
Proof.
  intros [Hq Hs]. unfold SizedQueue.pop.
  pose proof (repr_pop _ _ Hq) as Hp. pose proof (repr_hasItems _ _ Hq) as Hh.
  unfold Queue.hasItems in Hh. destruct l as [|x l].
  - destruct (Queue.root (SizedQueue.items q)); [done|]. by split.
  - destruct (Queue.root (SizedQueue.items q)); [|done].
    destruct Hp as (q' & -> & Hq'). simpl. split; [done|]. split; [done|].
    simpl in *. lia.
Qed.

Lemma sized_exec (os : list (@Queue.op T)) :
  ∀ q l, SizedQueue.repr q l →
         SizedQueue.repr (SizedQueue.exec os q) (SizedQueue.model_exec os l).
Proof.
  induction os as [|o os IH]; intros q l Hq; [done|].
  destruct o as [x| |]; simpl; apply IH.
  - by apply sized_repr_push.
  - destruct (sized_repr_pop _ _ Hq) as [_ Hq']. by destruct l.
  - done.
Qed.

End sized_queue_facts.

(** X1: after any sequence of [push], [pop] and [hasItems] calls on a new
    counting queue, [size] is the number of items pushed and not yet
    popped (a [pop] on the empty queue does not count down), and
    [hasItems] is true exactly when [size] is not zero. *)
Theorem sized_queue_counts {T : Type} (os : list (@Queue.op T)) :
  let q := SizedQueue.exec os SizedQueue.empty in
  SizedQueue.size q = Z.of_nat (length (SizedQueue.model_exec os []))
  ∧ (SizedQueue.hasItems q = true ↔ SizedQueue.size q ≠ 0%Z)
  ∧ (SizedQueue.pop q).1 = head (SizedQueue.model_exec os []).
Proof.
  cbv zeta.
  destruct (sized_exec os SizedQueue.empty []) as [Hq Hs]; [by split|].
  split_and!; [done| |].
  - unfold SizedQueue.hasItems. rewrite (repr_hasItems _ _ Hq), Hs.
    destruct (SizedQueue.model_exec os []); simpl; [done|]. split; [lia|done].
  - by destruct (sized_repr_pop _ _ (conj Hq Hs)).
Qed.

(** ** Options *)

(** X2: the constructor's option object has exactly the keys of
    [DEFAULT_OPTIONS]: each holds the caller's value when one was given
    and the default otherwise; whatever else the caller passed ([root] to
    the directory-scan variant, [ignore] to the entry-seeded one) is
    dropped. *)
Theorem merge_options (cwd : string) (options : gmap string Options.value) (k : string) :
  JsObject.get (Options.merge Options.DEFAULT_OPTIONS_scan options) k
  = (if bool_decide (k ∈ ["alias"; "debug"; "ignore"])
     then Some (default (default (Options.Flag false)
                           (Fixture.lookup_assoc k Options.DEFAULT_OPTIONS_scan))
                        (options !! k))
     else None)
  ∧ JsObject.get (Options.merge (Options.DEFAULT_OPTIONS_entries cwd) options) k
    = (if bool_decide (k ∈ ["alias"; "root"; "debug"])
       then Some (default (default (Options.Flag false)
                             (Fixture.lookup_assoc k (Options.DEFAULT_OPTIONS_entries cwd)))
                          (options !! k))
       else None)
  ∧ JsObject.keys (Options.merge Options.DEFAULT_OPTIONS_scan options)
    = ["alias"; "debug"; "ignore"]
  ∧ JsObject.keys (Options.merge (Options.DEFAULT_OPTIONS_entries cwd) options)
    = ["alias"; "root"; "debug"].
Proof.
  split_and!; [| |reflexivity|reflexivity].
  - unfold Options.merge, Options.DEFAULT_OPTIONS_scan, JsObject.get. simpl.
    destruct (decide (k = "ignore")) as [->|?]; [by rewrite lookup_insert_eq|].
    rewrite lookup_insert_ne by done.
    destruct (decide (k = "debug")) as [->|?]; [by rewrite lookup_insert_eq|].
    rewrite lookup_insert_ne by done.
    destruct (decide (k = "alias")) as [->|?]; [by rewrite lookup_insert_eq|].
    rewrite lookup_insert_ne, lookup_empty by done.
    rewrite bool_decide_eq_false_2; [done|].
    intros Hk. rewrite !elem_of_cons, elem_of_nil in Hk.
    destruct Hk as [?|[?|[?|[]]]]; congruence.
  - unfold Options.merge, Options.DEFAULT_OPTIONS_entries, JsObject.get. simpl.
    destruct (decide (k = "debug")) as [->|?]; [by rewrite lookup_insert_eq|].
    rewrite lookup_insert_ne by done.
    destruct (decide (k = "root")) as [->|?]; [by rewrite lookup_insert_eq|].
    rewrite lookup_insert_ne by done.
    destruct (decide (k = "alias")) as [->|?]; [by rewrite lookup_insert_eq|].
    rewrite lookup_insert_ne, lookup_empty by done.
    rewrite bool_decide_eq_false_2; [done|].
    intros Hk. rewrite !elem_of_cons, elem_of_nil in Hk.
    destruct Hk as [?|[?|[?|[]]]]; congruence.
Qed.

(** ** Paths the resolver builds *)

Lemma prefix_append (p s : string) : String.prefix p (p +:+ s) = true.
Proof.
  induction p as [|c p IH]; simpl; [by destruct s|].
  destruct (ascii_dec c c); [done|congruence].
Qed.

Lemma substring_all (s : string) : String.substring 0 (String.length s) s = s.
Proof. induction s as [|d s IH]; simpl; [done|]. by rewrite IH. Qed.

Lemma substring_append (p s : string) :
  String.substring (String.length p) (String.length (p +:+ s) - String.length p) (p +:+ s)
  = s.
Proof.
  induction p as [|c p IH]; simpl.
  - rewrite Nat.sub_0_r. apply substring_all.
  - exact IH.
Qed.

Lemma replace_unfold (s pat rep : string) :
  JsString.replace s pat rep
  = if String.prefix pat s
    then rep +:+ String.substring (String.length pat)
                                  (String.length s - String.length pat) s
    else match s with
         | EmptyString => EmptyString
         | String c s' => String c (JsString.replace s' pat rep)
         end.
Proof. by destruct s. Qed.

Lemma replace_absent (s pat rep : string) :
  JsString.includes s pat = false → JsString.replace s pat rep = s.
Proof.
  induction s as [|c s IH]; simpl.
  - intros H. apply orb_false_elim in H as [-> _]. done.
  - intros H. apply orb_false_elim in H as [-> H]. by rewrite IH.
Qed.

(** X3: [printModulePath] turns a path under the root into the path
    relative to it, and leaves a path alone in which the root followed by
    a separator does not occur. *)
Theorem printModulePath_relative (root rel p : string) :
  Resolver.printModulePath root ((root +:+ Path.sep) +:+ rel) = rel
  ∧ (JsString.includes p (root +:+ Path.sep) = false →
     Resolver.printModulePath root p = p).
Proof.
  unfold Resolver.printModulePath. split.
  - rewrite replace_unfold, prefix_append. simpl. apply substring_append.
  - apply replace_absent.
Qed.

Lemma printModulePath_relative_witness :
  Resolver.printModulePath "/proj" (("/proj" +:+ Path.sep) +:+ "src/a.js") = "src/a.js"
  ∧ Resolver.printModulePath "/proj" "./missing.js" = "./missing.js".
Proof.
  destruct (printModulePath_relative "/proj" "src/a.js" "./missing.js") as [H1 H2].
  split; [exact H1|exact (H2 eq_refl)].
Defined.

Lemma startsWith_append (p s : string) : JsString.startsWith (p +:+ s) p = true.
Proof. apply prefix_append. Qed.

(** X4: [normalizeFilePath] always returns a path that starts with [./]
    or [../] or is absolute, and normalizing twice is normalizing once. *)
Theorem normalizeFilePath_idempotent (p : string) :
  let r := Resolver.normalizeFilePath p in
  (JsString.startsWith r "./" = true ∨ JsString.startsWith r "../" = true
   ∨ Path.isAbsolute r = true)
  ∧ Resolver.normalizeFilePath r = r.
Proof.
  cbv zeta.
  assert (JsString.startsWith (Resolver.normalizeFilePath p) "./"
          || JsString.startsWith (Resolver.normalizeFilePath p) "../"
          || Path.isAbsolute (Resolver.normalizeFilePath p) = true) as H.
  { unfold Resolver.normalizeFilePath.
    change ("." +:+ Path.sep) with "./". change (".." +:+ Path.sep) with "../".
    destruct (JsString.startsWith p "./" || JsString.startsWith p "../"
              || Path.isAbsolute p) eqn:E; [exact E|].
    by destruct p. }
  split.
  - apply orb_true_iff in H as [H|H]; [|by right; right].
    apply orb_true_iff in H as [H|H]; [by left|by right; left].
  - unfold Resolver.normalizeFilePath at 1.
    change ("." +:+ Path.sep) with "./". change (".." +:+ Path.sep) with "../".
    by rewrite H.
Qed.

Lemma prefix_inv (pat : string) :
  ∀ s, String.prefix pat s = true → ∃ r, s = pat +:+ r.
Proof.
  induction pat as [|a pat IH]; intros s H.
  - by exists s.
  - destruct s as [|b s]; [done|]. simpl in H.
    destruct (ascii_dec a b) as [->|]; [|done].
    destruct (IH s H) as [r ->]. by exists r.
Qed.

Lemma split_dot (p : string) :
  JsString.startsWith p "./" = true → hd "" (JsString.split p Path.slash) = ".".
Proof. intros H. by destruct (prefix_inv _ _ H) as [r ->]. Qed.

Lemma split_dotdot (p : string) :
  JsString.startsWith p "../" = true → hd "" (JsString.split p Path.slash) = "..".
Proof. intros H. by destruct (prefix_inv _ _ H) as [r ->]. Qed.

(** X5: a specifier that starts with [./] or [../] is never rewritten by
    [replaceAlias], whatever the alias table holds, also an alias named
    [.] or [..]; any other specifier stays as it is when its first segment
    is neither a key of the alias table nor a member every object
    inherits.  An inherited member is an alias of its own: without any
    alias configured, [constructor/x] is rewritten to the text of the
    [Object] function under the root. *)
Theorem replaceAlias_keeps_relative (root : string) (alias : gmap string string)
    (p : string) :
  JsString.startsWith p "./" = true ∨ JsString.startsWith p "../" = true
  ∨ (alias !! hd "" (JsString.split p Path.slash) = None
     ∧ Resolver.inherited (hd "" (JsString.split p Path.slash)) = None) →
  Resolver.replaceAlias root alias p = p
  ∧ Resolver.replaceAlias root ∅ "constructor/x"
    = Path.join [root; "function Object() { [native code] }/x"].
Proof.
  intros H. split.
  - unfold Resolver.replaceAlias, Resolver.alias_lookup.
    destruct H as [H|[H|[H1 H2]]];
      [by rewrite (split_dot _ H)|by rewrite (split_dotdot _ H)|].
    rewrite H1, H2. by destruct (_ || _).
  - unfold Resolver.replaceAlias, Resolver.alias_lookup.
    change (hd "" (JsString.split "constructor/x" Path.slash)) with "constructor".
    rewrite lookup_empty. reflexivity.
Qed.

Lemma replaceAlias_keeps_relative_witness :
  Resolver.replaceAlias "/proj" {[ "." := "/elsewhere" ]} "./b" = "./b"
  ∧ Resolver.replaceAlias "/proj" ∅ "constructor/x"
    = Path.join ["/proj"; "function Object() { [native code] }/x"].
Proof.
  apply (replaceAlias_keeps_relative "/proj" {[ "." := "/elsewhere" ]} "./b").
  left. reflexivity.
Defined.

Lemma dirname_absolute (p : string) :
  Path.isAbsolute p = true → Path.isAbsolute (Path.dirname p) = true.
Proof.
  destruct p as [|c0 s]; [done|]. unfold Path.dirname, JsString.chars. simpl.
  intros Hc. rewrite Hc.
  destruct (Path.drop_while _ _) as [|? [|? ?]]; simpl; done.
Qed.

Lemma normalize_absolute (p : string) :
  Path.isAbsolute p = true → Path.isAbsolute (Path.normalize p) = true.
Proof.
  intros Habs. unfold Path.normalize. rewrite Habs.
  destruct p as [|c s]; [done|]. simpl String.eqb. cbv iota.
  destruct (String.eqb _ ""); [done|]. by destruct (Path.ends_with_slash _).
Qed.

Lemma concat_absolute (d : string) (rest : list string) :
  Path.isAbsolute d = true → Path.isAbsolute (JsString.join (d :: rest) "/") = true.
Proof.
  destruct d as [|c s]; [done|]. unfold JsString.join. simpl.
  by destruct rest.
Qed.

Lemma join_absolute (d : string) (rest : list string) :
  Path.isAbsolute d = true → Path.isAbsolute (Path.join (d :: rest)) = true.
Proof.
  intros Habs. unfold Path.join.
  rewrite filter_cons_True by (by destruct d).
  by apply normalize_absolute, concat_absolute.
Qed.

(** X6: when the referencing file (or, without one, the root) is an
    absolute path, [getFullPath] returns an absolute path, and applying
    [getFullPath] to its own result changes nothing. *)
Theorem getFullPath_absolute (root f : string) (parent parent' : option string) :
  Path.isAbsolute (default root parent) = true →
  Path.isAbsolute (Resolver.getFullPath root f parent) = true
  ∧ Resolver.getFullPath root (Resolver.getFullPath root f parent) parent'
    = Resolver.getFullPath root f parent.
Proof.
  intros Habs.
  assert (Path.isAbsolute (Resolver.getFullPath root f parent) = true) as H.
  { unfold Resolver.getFullPath. destruct (Path.isAbsolute f) eqn:Hf; [done|].
    apply join_absolute. unfold Resolver.dir_of.
    destruct (Resolver.nonempty _); [by apply dirname_absolute|done]. }
  split; [done|]. unfold Resolver.getFullPath at 1. by rewrite H.
Qed.

Lemma getFullPath_absolute_witness :
  Path.isAbsolute (Resolver.getFullPath "/proj" "./b" (Some "/proj/src/c.js")) = true
  ∧ Resolver.getFullPath "/proj" (Resolver.getFullPath "/proj" "./b" (Some "/proj/src/c.js"))
                         None
    = Resolver.getFullPath "/proj" "./b" (Some "/proj/src/c.js").
Proof.
  apply (getFullPath_absolute "/proj" "./b" (Some "/proj/src/c.js") None).
  reflexivity.
Defined.

(** ** Probing directories *)

(** X7: what extension inference or the index fallback picks is an entry
    of the listed directory whose name without extension is the wanted
    name and which has an extension; no entry before it in the listing
    qualifies. *)
Theorem probe_picks_first_match (env : NodeEnv) (dir wanted f : string) :
  Resolver.probe env dir wanted = Some f →
  ∃ before after,
    readdirSync env dir = Some (before ++ f :: after)
    ∧ Path.parse_name f = wanted
    ∧ Path.parse_ext f ≠ ""
    ∧ ∀ g, g ∈ before → ¬ (Path.parse_name g = wanted ∧ Path.parse_ext g ≠ "").
Proof.
  unfold Resolver.probe, Resolver.find_named.
  destruct (readdirSync env dir) as [files|]; [|done].
  induction files as [|g files IH]; [done|]. simpl.
  destruct (String.eqb (Path.parse_name g) wanted && Resolver.nonempty (Path.parse_ext g))
    eqn:Hg.
  - intros [= ->]. exists [], files.
    apply andb_true_iff in Hg as [Hn He]. apply String.eqb_eq in Hn.
    unfold Resolver.nonempty in He. apply negb_true_iff, String.eqb_neq in He.
    split_and!; [done..|]. intros g Hin. by apply elem_of_nil in Hin.
  - intros Hfind. destruct (IH Hfind) as (before & after & [= ->] & Hn & He & Hb).
    exists (g :: before), after. split_and!; [done..|].
    intros g' [->|Hin]%elem_of_cons; [|by apply Hb].
    intros [Hn' He']. apply andb_false_iff in Hg as [Hg|Hg].
    + by apply String.eqb_neq in Hg.
    + unfold Resolver.nonempty in Hg. apply negb_false_iff, String.eqb_eq in Hg. done.
Qed.

Lemma probe_picks_first_match_witness :
  ∃ before after,
    readdirSync (Fixture.env Fixture.readme) "/proj" = Some (before ++ "b.js" :: after)
    ∧ Path.parse_name "b.js" = "b"
    ∧ Path.parse_ext "b.js" ≠ ""
    ∧ ∀ g, g ∈ before → ¬ (Path.parse_name g = "b" ∧ Path.parse_ext g ≠ "").
Proof.
  apply (probe_picks_first_match (Fixture.env Fixture.readme) "/proj" "b" "b.js").
  reflexivity.
Defined.

(** X8: failures to list a directory are swallowed: when neither the
    directory of the candidate nor the candidate itself can be listed,
    resolution of a specifier without extension is direct resolution of
    the specifier as it came in. *)
Theorem unlistable_directories_fall_through (env : NodeEnv) (root f : string)
    (parent : option string) :
  readdirSync env (Path.dirname (Resolver.getFullPath root f parent)) = None →
  readdirSync env (Resolver.getFullPath root f parent) = None →
  Resolver.resolveWithExtension env root f parent = Resolver.res env root f parent.
Proof.
  intros Hd Hf. unfold Resolver.resolveWithExtension, Resolver.probe.
  rewrite Hd, Hf. by destruct (Resolver.nonempty _).
Qed.

Lemma unlistable_directories_fall_through_witness :
  Resolver.resolveWithExtension (Fixture.env Fixture.readme) "/proj" "pkg/sub"
                                (Some "/proj/c.js")
  = Resolver.res (Fixture.env Fixture.readme) "/proj" "pkg/sub" (Some "/proj/c.js").
Proof.
  apply (unlistable_directories_fall_through (Fixture.env Fixture.readme) "/proj" "pkg/sub"
                                             (Some "/proj/c.js"));
    reflexivity.
Defined.

(** ** A root directory that is not there *)

(** X9: when the root directory does not exist, either variant prints
    "Couldn't find root directory" with the root and exits with status 1
    for every amount of fuel: the entry-seeded variant before it analyzes
    anything, the directory-scan variant before it lists or queues
    anything, provided its ignore pattern compiles; a pattern that does
    not compile makes the constructor throw a [SyntaxError] before the
    root is looked at. *)
Theorem missing_root_is_fatal (env : NodeEnv) (root : string)
    (alias : gmap string string) (ignore : string) (entries : list string) (fuel : nat) :
  existsSync env root = false →
  DirScan.run env root alias ignore fuel
  = (if regexp_valid env (ignore +:+ "|" +:+ DirScan.ALWAYS_IGNORE)
     then Exited 1 (DirScan.log ["Couldn't find root directory"; root] DirScan.initial)
     else Thrown (SyntaxError ("Invalid regular expression: /"
                               +:+ (ignore +:+ "|" +:+ DirScan.ALWAYS_IGNORE) +:+ "/"))
                 DirScan.initial)
  ∧ ∃ st, EntrySeeded.run env root alias entries fuel = Exited 1 st
          ∧ EntrySeeded.console st = [["Couldn't find root directory"; root]]
          ∧ EntrySeeded.analyzedModules st = ∅
          ∧ EntrySeeded.suspiciousModules st = JsObject.empty.
Proof.
  intros Hroot. split.
  - unfold DirScan.run, DirScan.constructor, bind, DirScan.compileIgnore, DirScan.validate.
    cbv zeta. destruct (regexp_valid env _); [|done]. by rewrite Hroot.
  - unfold EntrySeeded.run, EntrySeeded.constructor, bind.
    assert (∀ (l : list string) st,
              ∃ st', forEach (λ entry, modify (λ st, EntrySeeded.set_queue
                        (Queue.push (EntrySeeded.mkItem entry None) (EntrySeeded.queue st)) st))
                       l st = Done tt st'
                     ∧ EntrySeeded.console st' = EntrySeeded.console st
                     ∧ EntrySeeded.analyzedModules st' = EntrySeeded.analyzedModules st
                     ∧ EntrySeeded.suspiciousModules st' = EntrySeeded.suspiciousModules st)
      as Hpush.
    { induction l as [|e l IH]; intros st; simpl; [by exists st|].
      unfold bind, modify at 1.
      destruct (IH (EntrySeeded.set_queue
                      (Queue.push (EntrySeeded.mkItem e None) (EntrySeeded.queue st)) st))
        as (st' & -> & ? & ? & ?).
      by exists st'. }
    destruct (Hpush entries EntrySeeded.initial) as (st & -> & Hc & Ha & Hs).
    unfold EntrySeeded.validate. rewrite Hroot. eexists. split; [done|].
    simpl. by rewrite Hc, Ha, Hs.
Qed.

Lemma missing_root_is_fatal_witness :
  (DirScan.run (Fixture.env Fixture.readme) "/nowhere" ∅ "node_modules" 5
   = Exited 1 (DirScan.log ["Couldn't find root directory"; "/nowhere"] DirScan.initial)
   ∧ ∃ st, EntrySeeded.run (Fixture.env Fixture.readme) "/nowhere" ∅ ["./b.js"] 5
           = Exited 1 st
           ∧ EntrySeeded.console st = [["Couldn't find root directory"; "/nowhere"]]
           ∧ EntrySeeded.analyzedModules st = ∅
           ∧ EntrySeeded.suspiciousModules st = JsObject.empty)
  ∧ DirScan.run (Fixture.env Fixture.readme) "/nowhere" ∅ "*.test.js" 5
    = Thrown (SyntaxError "Invalid regular expression: /*.test.js|.git|.vscode|.idea/")
             DirScan.initial.
Proof.
  split.
  - apply (missing_root_is_fatal (Fixture.env Fixture.readme) "/nowhere" ∅ "node_modules"
                                 ["./b.js"] 5).
    reflexivity.
  - apply (missing_root_is_fatal (Fixture.env Fixture.readme) "/nowhere" ∅ "*.test.js"
                                 ["./b.js"] 5).
    reflexivity.
Defined.

(** ** Which calls of [require] the traversal records

    X10: in either variant, wherever the statement stands and whatever
    the state is, nothing is recorded, printed or queued for
    [require('m');] as a statement of its own, for the assignment
    [x = require('m')], for the destructuring
    [const {a} = require('m')], for a [require] that is an argument of
    another call, [f(require('m'))], and for a call of a function of
    another name, [const x = load('m')].  The heritage of a named class,
    [class A extends require('m') {}], is handled exactly like
    [const x = require('m')]: the class has an identifier as [id]. *)
Theorem unbound_requires_are_passed_over (env : NodeEnv) (root : string)
    (alias : gmap string string) (file x a f m : string) (loc loc' : nat * nat)
    (c : container) :
  let call := CallExpression (Identifier "require") [StringLiteral m] (Some loc) in
  let silent n :=
    (∀ st, forEach (DirScan.visitor env root alias file) (events c n) st = Done tt st)
    ∧ (∀ st, forEach (EntrySeeded.visitor env root alias file) (events c n) st = Done tt st) in
  silent (ExpressionStatement call)
  ∧ silent (ExpressionStatement (AssignmentExpression (Identifier x) call))
  ∧ silent (VariableDeclaration [VariableDeclarator (ObjectPattern [a]) (Some call)])
  ∧ silent (ExpressionStatement (CallExpression (Identifier f) [call] (Some loc')))
  ∧ silent (VariableDeclaration
              [VariableDeclarator (Identifier x)
                 (Some (CallExpression (Identifier "load") [StringLiteral m] (Some loc)))])
  ∧ (∀ st, forEach (DirScan.visitor env root alias file)
                   (events c (ClassDeclaration (Some (Identifier x)) (Some call))) st
           = forEach (DirScan.visitor env root alias file)
                     (events c (const_require x m loc)) st)
  ∧ (∀ st, forEach (EntrySeeded.visitor env root alias file)
                   (events c (ClassDeclaration (Some (Identifier x)) (Some call))) st
           = forEach (EntrySeeded.visitor env root alias file)
                     (events c (const_require x m loc)) st).
Proof.
  cbv zeta. split_and!; try (intros st; reflexivity).
  - intros st. simpl. unfold bind, DirScan.onCallExpression. simpl.
    by destruct (String.eqb f "require").
  - intros st. simpl. unfold bind, EntrySeeded.onCallExpression. simpl.
    by destruct (String.eqb f "require").
Qed.

(** ** What goes into the entry-seeded queue *)

(** X11: an edge whose specifier has an extension other than [.ts], [.js]
    or [.jsx] is never enqueued, wherever it was found. *)
Theorem unparseable_edges_are_dropped (item : EntrySeeded.QueueItem)
    (st : EntrySeeded.state) :
  Path.extname (EntrySeeded.filePath item) ≠ "" →
  Path.extname (EntrySeeded.filePath item) ∉ PARSEABLE_EXTENSIONS →
  EntrySeeded.safePushToQueue item st = st.
Proof.
  intros Hne Hnp. unfold EntrySeeded.safePushToQueue, Resolver.nonempty, parseable.
  rewrite (proj2 (String.eqb_neq _ _) Hne), bool_decide_eq_false_2 by done. done.
Qed.

Lemma unparseable_edges_are_dropped_witness :
  EntrySeeded.safePushToQueue (EntrySeeded.mkItem "./data.json" (Some "/proj/a.js"))
                              EntrySeeded.initial
  = EntrySeeded.initial.
Proof.
  apply (unparseable_edges_are_dropped
           (EntrySeeded.mkItem "./data.json" (Some "/proj/a.js")) EntrySeeded.initial).
  - discriminate.
  - apply (bool_decide_unpack _). vm_compute. exact I.
Defined.

(** X12: an edge found in a file outside [node_modules] whose specifier
    has no extension, or one of [.ts], [.js], [.jsx], goes to the tail of
    the queue: it will be popped after everything queued before it, and
    nothing else in the state changes. *)
Theorem kept_edges_join_the_tail (item : EntrySeeded.QueueItem) (st : EntrySeeded.state)
    (l : list EntrySeeded.QueueItem) :
  Queue.repr (EntrySeeded.queue st) l →
  EntrySeeded.parent_in_node_modules item = false →
  Path.extname (EntrySeeded.filePath item) = ""
    ∨ Path.extname (EntrySeeded.filePath item) ∈ PARSEABLE_EXTENSIONS →
  Queue.repr (EntrySeeded.queue (EntrySeeded.safePushToQueue item st)) (l ++ [item])
  ∧ EntrySeeded.analyzedModules (EntrySeeded.safePushToQueue item st)
    = EntrySeeded.analyzedModules st
  ∧ EntrySeeded.suspiciousModules (EntrySeeded.safePushToQueue item st)
    = EntrySeeded.suspiciousModules st
  ∧ EntrySeeded.console (EntrySeeded.safePushToQueue item st) = EntrySeeded.console st.
Proof.
  intros Hq Hp Hext.
  assert (EntrySeeded.safePushToQueue item st
          = EntrySeeded.set_queue (Queue.push item (EntrySeeded.queue st)) st) as ->.
  { unfold EntrySeeded.safePushToQueue. rewrite Hp.
    destruct Hext as [-> | Hin]; [done|].
    unfold parseable. by rewrite bool_decide_eq_true_2, andb_false_r. }
  split_and!; [|done..]. simpl. by apply repr_push.
Qed.

Lemma kept_edges_join_the_tail_witness :
  let item := EntrySeeded.mkItem "./b" (Some "/proj/c.js") in
  Queue.repr (EntrySeeded.queue (EntrySeeded.safePushToQueue item EntrySeeded.initial))
             ([] ++ [item])
  ∧ EntrySeeded.analyzedModules (EntrySeeded.safePushToQueue item EntrySeeded.initial)
    = EntrySeeded.analyzedModules EntrySeeded.initial
  ∧ EntrySeeded.suspiciousModules (EntrySeeded.safePushToQueue item EntrySeeded.initial)
    = EntrySeeded.suspiciousModules EntrySeeded.initial
  ∧ EntrySeeded.console (EntrySeeded.safePushToQueue item EntrySeeded.initial)
    = EntrySeeded.console EntrySeeded.initial.
Proof.
  apply (kept_edges_join_the_tail (EntrySeeded.mkItem "./b" (Some "/proj/c.js"))
                                  EntrySeeded.initial []).
  - apply repr_empty.
  - reflexivity.
  - left. reflexivity.
Defined.

(** ** Recording and marking *)

(** X13: on a path that has a record, marking the default export and
    recording a caller can be done in either order in the entry-seeded
    registry: both give the flag set and the caller behind the earlier
    ones. *)
Theorem mark_and_record_commute (o : JsObject.t ModuleData) (p caller : string)
    (m : ModuleData) :
  JsObject.get o p = Some m →
  EntrySeeded.markSuspiciousModule p (EntrySeeded.recordCaller p caller o)
  = EntrySeeded.recordCaller p caller (EntrySeeded.markSuspiciousModule p o)
  ∧ JsObject.get (EntrySeeded.markSuspiciousModule p (EntrySeeded.recordCaller p caller o)) p
    = Some (mkModuleData true (callers m ++ [caller])).
Proof.
  intros Hp.
  assert (EntrySeeded.markSuspiciousModule p (EntrySeeded.recordCaller p caller o)
          = JsObject.set p (mkModuleData true (callers m ++ [caller])) o) as Hl.
  { unfold EntrySeeded.recordCaller. rewrite Hp.
    erewrite markSuspiciousModule_Some; last by rewrite get_set, bool_decide_eq_true_2.
    simpl. apply set_set. }
  split.
  - rewrite Hl, (markSuspiciousModule_Some _ _ _ Hp).
    unfold EntrySeeded.recordCaller.
    rewrite get_set, bool_decide_eq_true_2 by done. simpl. by rewrite set_set.
  - rewrite Hl, get_set. by rewrite bool_decide_eq_true_2.
Qed.

Lemma mark_and_record_commute_witness :
  let o := JsObject.set "/proj/b.js" (mkModuleData false ["/proj/a.js"]) JsObject.empty in
  EntrySeeded.markSuspiciousModule "/proj/b.js"
    (EntrySeeded.recordCaller "/proj/b.js" "/proj/c.js" o)
  = EntrySeeded.recordCaller "/proj/b.js" "/proj/c.js"
      (EntrySeeded.markSuspiciousModule "/proj/b.js" o)
  ∧ JsObject.get (EntrySeeded.markSuspiciousModule "/proj/b.js"
                    (EntrySeeded.recordCaller "/proj/b.js" "/proj/c.js" o)) "/proj/b.js"
    = Some (mkModuleData true (["/proj/a.js"] ++ ["/proj/c.js"])).
Proof.
  apply (mark_and_record_commute
           (JsObject.set "/proj/b.js" (mkModuleData false ["/proj/a.js"]) JsObject.empty)
           "/proj/b.js" "/proj/c.js" (mkModuleData false ["/proj/a.js"])).
  reflexivity.
Defined.

(** ** The report *)

Lemma omap_guard {A B} (c : A → bool) (g : A → B) (P : A → Prop)
    `{!∀ x, Decision (P x)} (l : list A) :
  (∀ x, c x = true ↔ P x) →
  omap (λ x, if c x then Some (g x) else None) l = g <$> filter P l.
Proof.
  intros Hc. induction l as [|x l IH]; [done|].
  change (omap (λ x, if c x then Some (g x) else None) (x :: l))
    with (match (if c x then Some (g x) else None) with
          | Some y => y :: omap (λ x, if c x then Some (g x) else None) l
          | None => omap (λ x, if c x then Some (g x) else None) l
          end).
  destruct (c x) eqn:Hx.
  - rewrite filter_cons_True by (by apply Hc). rewrite fmap_cons. by rewrite IH.
  - rewrite filter_cons_False; [done|]. intros HP%Hc. congruence.
Qed.

Lemma omap_pointwise {A B} (f g : A → option B) (l : list A) :
  (∀ x, f x = g x) → omap f l = omap g l.
Proof.
  intros Hfg. induction l as [|x l IH]; [done|].
  change (omap f (x :: l)) with (match f x with Some y => y :: omap f l | None => omap f l end).
  change (omap g (x :: l)) with (match g x with Some y => y :: omap g l | None => omap g l end).
  by rewrite Hfg, IH.
Qed.

(** X14: the report of either variant has one line for every registry
    entry that has a default export and at least one caller, in the order
    of the registry, and no other line.  The line names the module without
    the root prefix, then its callers separated by commas: the
    directory-scan variant puts the root in front of every caller and
    takes it off again, the entry-seeded variant joins the callers first
    and takes the root prefix off the joined text, that is off the first
    caller that has it and off no later one. *)
Theorem report_lists_suspicious_modules (root : string) (o : JsObject.t ModuleData) :
  DirScan.usages root o
  = (λ km, "  - " +:+ Resolver.printModulePath root km.1 +:+ " is required by "
           +:+ JsString.join
                 ((λ c, Resolver.printModulePath root (root +:+ Path.sep +:+ c))
                    <$> callers km.2) ", ")
    <$> filter (λ km, hasDefaultExport km.2 = true ∧ callers km.2 ≠ [])
               (JsObject.entries o)
  ∧ EntrySeeded.usages root o
    = (λ km, "  - " +:+ Resolver.printModulePath root km.1 +:+ " is required by "
             +:+ Resolver.printModulePath root (JsString.join (callers km.2) ", "))
      <$> filter (λ km, hasDefaultExport km.2 = true ∧ callers km.2 ≠ [])
                 (JsObject.entries o)
  ∧ EntrySeeded.usages "/proj"
      (JsObject.set "/proj/b.js" (mkModuleData true ["/proj/a.js"; "/proj/c.js"])
         (JsObject.set "/proj/d.js" (mkModuleData true [])
            (JsObject.set "/proj/e.js" (mkModuleData true ["/proj/a.js"]) JsObject.empty)))
    = [ "  - e.js is required by a.js";
        "  - b.js is required by a.js, /proj/c.js" ].
Proof.
  assert (∀ km : string * ModuleData,
            hasDefaultExport km.2 && negb (Nat.eqb (length (callers km.2)) 0) = true
            ↔ hasDefaultExport km.2 = true ∧ callers km.2 ≠ []) as Hcond.
  { intros [k m]. simpl. rewrite andb_true_iff, negb_true_iff, Nat.eqb_neq.
    split; intros [? Hl]; (split; [done|]); by destruct (callers m). }
  split; [|split].
  - unfold DirScan.usages.
    rewrite <- (omap_guard _ _ _ _ Hcond). apply omap_pointwise. by intros [k m].
  - unfold EntrySeeded.usages.
    rewrite <- (omap_guard _ _ _ _ Hcond). apply omap_pointwise. by intros [k m].
  - by vm_compute.
Qed.

(** ** Relations every step of a computation keeps *)

Section respects_facts.
Context {S : Type} (R : S → S → Prop) `{!Reflexive R} `{!Transitive R}.

Lemma respects_ret {A} (a : A) : respects R (ret a).
Proof using Type*. intros st. simpl. reflexivity. Qed.

Lemma respects_throw {A} (e : exn) : respects R (throw (A:=A) e).
Proof using Type*. intros st. simpl. reflexivity. Qed.

Lemma respects_modify (f : S → S) : (∀ st, R st (f st)) → respects R (modify f).
Proof using Type*. intros Hf st. simpl. apply Hf. Qed.

Lemma respects_bind {A B} (m : M S A) (k : A → M S B) :
  respects R m → (∀ a, respects R (k a)) → respects R (bind m k).
Proof using Type*.
  intros Hm Hk st. unfold bind. specialize (Hm st).
  destruct (m st) as [a s'|c s'|e s']; simpl in *; [|done..].
  etrans; [exact Hm|]. apply Hk.
Qed.

Lemma respects_forEach {A} (f : A → M S unit) (l : list A) :
  (∀ x, respects R (f x)) → respects R (forEach f l).
Proof using Type*.
  intros Hf. induction l as [|x l IH]; simpl.
  - apply respects_ret.
  - apply respects_bind; [apply Hf|]. by intros _.
Qed.

Lemma respects_validateString (v : jsval) : respects R (validateString v).
Proof using Type*. destruct v; [apply respects_throw|apply respects_ret|apply respects_throw]. Qed.

End respects_facts.

(** ** The registry only gains *)

Global Instance record_grows_refl : Reflexive record_grows.
Proof. intros m. by split. Qed.

Global Instance record_grows_trans : Transitive record_grows.
Proof. intros m1 m2 m3 [H1 H1'] [H2 H2']. split; [auto|]. by etrans. Qed.

Global Instance registry_grows_refl : Reflexive registry_grows.
Proof. intros o. split; [done|]. intros k m Hk. by exists m. Qed.

Global Instance registry_grows_trans : Transitive registry_grows.
Proof.
  intros o1 o2 o3 [Hk1 H1] [Hk2 H2]. split; [by etrans|].
  intros k m Hm. destruct (H1 k m Hm) as (m' & Hm' & Hg).
  destruct (H2 k m' Hm') as (m'' & Hm'' & Hg'). exists m''. split; [done|]. by etrans.
Qed.

Lemma registry_grows_new (o : JsObject.t ModuleData) (k : string) (m : ModuleData) :
  JsObject.get o k = None → registry_grows o (JsObject.set k m o).
Proof.
  intros Hk. split.
  - unfold JsObject.set. simpl. unfold JsObject.get in Hk. rewrite Hk.
    by apply prefix_app_r.
  - intros k' m' Hm'. exists m'. split; [|done].
    rewrite get_set. case_bool_decide; [congruence|done].
Qed.

Lemma registry_grows_update (o : JsObject.t ModuleData) (k : string) (m m' : ModuleData) :
  JsObject.get o k = Some m → record_grows m m' → registry_grows o (JsObject.set k m' o).
Proof.
  intros Hk Hg. split.
  - unfold JsObject.set. simpl. unfold JsObject.get in Hk. by rewrite Hk.
  - intros k' m0 Hm0. rewrite get_set. case_bool_decide as Hkk.
    + subst k'. exists m'. split; [done|]. congruence.
    + by exists m0.
Qed.

Lemma registry_grows_recordCaller_scan (o : JsObject.t ModuleData) (p caller : string) :
  registry_grows o (DirScan.recordCaller p caller o).
Proof.
  unfold DirScan.recordCaller. destruct (JsObject.get o p) as [m|] eqn:Hp.
  - eapply registry_grows_update; [done|]. split; [done|]. by apply prefix_app_r.
  - by apply registry_grows_new.
Qed.

Lemma registry_grows_recordCaller_entry (o : JsObject.t ModuleData) (p caller : string) :
  registry_grows o (EntrySeeded.recordCaller p caller o).
Proof.
  unfold EntrySeeded.recordCaller. destruct (JsObject.get o p) as [m|] eqn:Hp.
  - eapply registry_grows_update; [done|]. split; [done|]. by apply prefix_app_r.
  - by apply registry_grows_new.
Qed.

Lemma registry_grows_mark (o : JsObject.t ModuleData) (p : string) :
  registry_grows o (EntrySeeded.markSuspiciousModule p o).
Proof.
  unfold EntrySeeded.markSuspiciousModule. destruct (JsObject.get o p) as [m|] eqn:Hp.
  - eapply registry_grows_update; [done|]. by split.
  - done.
Qed.

(** *** Directory-scan variant *)

Global Instance scan_analysis_keeps_refl : Reflexive scan_analysis_keeps.
Proof. intros st. by split_and!. Qed.

Global Instance scan_analysis_keeps_trans : Transitive scan_analysis_keeps.
Proof.
  intros s1 s2 s3 (H1 & H2 & H3 & H4) (H1' & H2' & H3' & H4').
  split_and!; [by etrans|by etrans|congruence|congruence].
Qed.

Section dirscan_keeps.
Variable env : NodeEnv.
Variable root : string.
Variable alias : gmap string string.

Lemma keeps_resolved_scan (r : resolution) : respects scan_analysis_keeps (DirScan.resolved r).
Proof.
  intros st. destruct r; simpl; [done|].
  split_and!; [done| |done|done]. by apply prefix_app_r.
Qed.

Lemma keeps_suspectModule_scan (f parent : string) (loc : option (nat * nat)) :
  respects scan_analysis_keeps (DirScan.suspectModule env root alias f parent loc).
Proof.
  apply (respects_bind scan_analysis_keeps).
  - unfold DirScan.resolveFilePath. destruct (Path.isAbsolute f).
    + apply (respects_ret scan_analysis_keeps).
    + apply keeps_resolved_scan.
  - intros p. apply (respects_modify scan_analysis_keeps). intros st.
    split_and!; [|done..]. apply registry_grows_recordCaller_scan.
Qed.

Lemma keeps_visitor_scan (file : string) (e : event) :
  respects scan_analysis_keeps (DirScan.visitor env root alias file e).
Proof.
  destruct e as [src|callee args loc c|]; simpl.
  - apply (respects_ret scan_analysis_keeps).
  - unfold DirScan.onCallExpression.
    destruct (_ || _); [apply (respects_ret scan_analysis_keeps)|].
    destruct (truthy _); [apply (respects_ret scan_analysis_keeps)|].
    destruct args as [|a args]; [apply (respects_throw scan_analysis_keeps)|].
    apply (respects_bind scan_analysis_keeps); [apply (respects_validateString scan_analysis_keeps)|].
    intros m. apply keeps_suspectModule_scan.
  - intros st. unfold DirScan.onExportDefault.
    destruct (JsObject.get _ _) as [m|] eqn:Hm; simpl; [|done].
    split_and!; [|done..]. eapply registry_grows_update; [done|]. by split.
Qed.

Lemma keeps_analyze_scan (f : string) :
  respects scan_analysis_keeps (DirScan.analyze env root alias f).
Proof.
  intros st. unfold DirScan.analyze.
  destruct (JsObject.get (DirScan.analyzedModules st) f) eqn:Hf; [done|].
  assert (scan_analysis_keeps st
            (DirScan.set_analyzedModules
               (JsObject.set f new_ModuleData (DirScan.analyzedModules st)) st)) as H1.
  { split_and!; [|done..]. by apply registry_grows_new. }
  destruct (readFileSync env f); [|done].
  destruct (parse env _ _) as [e|ast]; [done|].
  etrans; [exact H1|].
  apply (respects_forEach scan_analysis_keeps). apply keeps_visitor_scan.
Qed.

End dirscan_keeps.

Lemma drain_keeps_scan (env : NodeEnv) (root : string) (alias : gmap string string)
    (fuel : nat) :
  ∀ st, registry_grows (DirScan.analyzedModules st)
                       (DirScan.analyzedModules (final (DirScan.drain env root alias fuel st)))
        ∧ DirScan.console st
            `prefix_of` DirScan.console (final (DirScan.drain env root alias fuel st)).
Proof.
  induction fuel as [|fuel IH]; intros st; simpl.
  - by destruct (Queue.hasItems _).
  - destruct (Queue.hasItems _); [|done].
    destruct (Queue.pop _) as [[f|] q]; [|done].
    unfold bind.
    pose proof (keeps_analyze_scan env root alias f (DirScan.set_analyzeQueue q st))
      as (Hr & Hc & _).
    destruct (DirScan.analyze _ _ _ _ _) as [[] s1| |]; simpl in *; [|done..].
    destruct (IH s1) as [Hr' Hc']. split; by etrans.
Qed.

(** X15: in the directory-scan variant the registry is append-only: an
    [analyze] call and the whole drain loop, however they end, keep every
    key in its place, never take a [hasDefaultExport] flag back and only
    add callers behind the ones recorded; the console only gains lines,
    and [analyze] leaves both queues as they are. *)
Theorem dirscan_registry_only_gains (env : NodeEnv) (root : string)
    (alias : gmap string string) (f : string) (fuel : nat) (st : DirScan.state) :
  scan_analysis_keeps st (final (DirScan.analyze env root alias f st))
  ∧ registry_grows (DirScan.analyzedModules st)
                   (DirScan.analyzedModules (final (DirScan.drain env root alias fuel st)))
  ∧ DirScan.console st
      `prefix_of` DirScan.console (final (DirScan.drain env root alias fuel st)).
Proof.
  split; [apply keeps_analyze_scan|apply drain_keeps_scan].
Qed.

(** X16: the drain loop of the directory-scan variant needs as many turns
    as the analyze queue holds paths: with that much fuel or more it never
    stops for lack of fuel, and when it completes the queue is empty. *)
Theorem dirscan_drain_terminates (env : NodeEnv) (root : string)
    (alias : gmap string string) (l : list string) (n : nat) (st : DirScan.state) :
  Queue.repr (DirScan.analyzeQueue st) l →
  match DirScan.drain env root alias (length l + n) st with
  | Done r st' => r = Some tt ∧ Queue.hasItems (DirScan.analyzeQueue st') = false
  | Exited _ _ | Thrown _ _ => True
  end.
Proof.
  revert st. induction l as [|x l IH]; intros st Hq.
  - pose proof (repr_hasItems _ _ Hq) as Hh.
    destruct n; simpl; by rewrite Hh.
  - simpl. rewrite (repr_hasItems _ _ Hq).
    destruct (repr_pop _ _ Hq) as (q' & -> & Hq').
    unfold bind.
    pose proof (keeps_analyze_scan env root alias x (DirScan.set_analyzeQueue q' st))
      as (_ & _ & Hqueue & _).
    destruct (DirScan.analyze _ _ _ _ _) as [[] s1| |]; simpl in *; [|done..].
    apply IH. by rewrite Hqueue.
Qed.

Lemma dirscan_drain_terminates_witness :
  match DirScan.drain (Fixture.env Fixture.readme) "/proj" ∅ (length ["/proj/b.js"] + 0)
          (DirScan.set_analyzeQueue (Queue.push "/proj/b.js" Queue.empty) DirScan.initial) with
  | Done r st' => r = Some tt ∧ Queue.hasItems (DirScan.analyzeQueue st') = false
  | Exited _ _ | Thrown _ _ => True
  end.
Proof.
  apply (dirscan_drain_terminates (Fixture.env Fixture.readme) "/proj" ∅ ["/proj/b.js"] 0
           (DirScan.set_analyzeQueue (Queue.push "/proj/b.js" Queue.empty) DirScan.initial)).
  apply (repr_push Queue.empty [] "/proj/b.js"), repr_empty.
Defined.

(** X17: [analyze] of the directory-scan variant is idempotent: once a
    call on a path has completed, the path has a record, and another call
    on it changes nothing. *)
Theorem dirscan_analyze_idempotent (env : NodeEnv) (root : string)
    (alias : gmap string string) (f : string) (st st' : DirScan.state) :
  DirScan.analyze env root alias f st = Done tt st' →
  is_Some (JsObject.get (DirScan.analyzedModules st') f)
  ∧ DirScan.analyze env root alias f st' = Done tt st'.
Proof.
  intros H.
  assert (is_Some (JsObject.get (DirScan.analyzedModules st') f)) as [m Hm].
  { unfold DirScan.analyze in H.
    destruct (JsObject.get (DirScan.analyzedModules st) f) eqn:Hf.
    - injection H as <-. by rewrite Hf.
    - destruct (readFileSync env f); [|done].
      destruct (parse env _ _) as [e|ast]; [done|].
      pose proof (respects_forEach scan_analysis_keeps
                    (DirScan.visitor env root alias f) (events CNone ast)
                    (keeps_visitor_scan env root alias f)
                    (DirScan.set_analyzedModules
                       (JsObject.set f new_ModuleData (DirScan.analyzedModules st)) st))
        as ([_ Hr] & _).
      unfold DirScan.traverse in H. rewrite H in Hr. simpl in Hr.
      destruct (Hr f new_ModuleData) as (m' & -> & _); [|done].
      by rewrite get_set, bool_decide_eq_true_2. }
  split; [by exists m|]. by eapply analyze_skips_recorded.
Qed.

Lemma dirscan_analyze_idempotent_witness :
  ∃ st', DirScan.analyze (Fixture.env Fixture.readme) "/proj" ∅ "/proj/c.js" DirScan.initial
         = Done tt st'
         ∧ is_Some (JsObject.get (DirScan.analyzedModules st') "/proj/c.js")
         ∧ DirScan.analyze (Fixture.env Fixture.readme) "/proj" ∅ "/proj/c.js" st'
           = Done tt st'.
Proof.
  eexists. split; [vm_compute; reflexivity|].
  apply (dirscan_analyze_idempotent (Fixture.env Fixture.readme) "/proj" ∅ "/proj/c.js"
                                    DirScan.initial).
  vm_compute. reflexivity.
Defined.

(** ** What the scan hands over *)

Global Instance queue_extends_refl {T} (P : T → Prop) : Reflexive (queue_extends P).
Proof. intros q l Hq. exists []. by rewrite app_nil_r. Qed.

Global Instance queue_extends_trans {T} (P : T → Prop) : Transitive (queue_extends P).
Proof.
  intros q1 q2 q3 H1 H2 l Hq.
  destruct (H1 l Hq) as (l1 & Hq1 & HP1). destruct (H2 _ Hq1) as (l2 & Hq2 & HP2).
  exists (l1 ++ l2). rewrite app_assoc. split; [done|]. by apply Forall_app.
Qed.

Lemma queue_extends_push {T} (P : T → Prop) (x : T) (q : Queue.t T) :
  P x → queue_extends P q (Queue.push x q).
Proof.
  intros HP l Hq. exists [x]. split; [by apply repr_push|]. by apply Forall_singleton.
Qed.

Global Instance scan_keeps_refl env ignore : Reflexive (scan_keeps env ignore).
Proof. intros st. by split_and!. Qed.

Global Instance scan_keeps_trans env ignore : Transitive (scan_keeps env ignore).
Proof.
  intros s1 s2 s3 (H1 & H2 & H3) (H1' & H2' & H3').
  split_and!; [by etrans|congruence|by etrans].
Qed.

Section scan_keeps_facts.
Variable env : NodeEnv.
Variable root : string.
Variable ignore : string.

Lemma keeps_scanEntry (d f : string) :
  respects (scan_keeps env ignore) (DirScan.scanEntry env ignore d f).
Proof.
  unfold DirScan.scanEntry.
  destruct (DirScan.ignored env ignore (Path.join [d; f])) eqn:Hi.
  { apply (respects_ret (scan_keeps env ignore)). }
  intros st. destruct (lstat_isDirectory env (Path.join [d; f])) as [[|]|] eqn:Hl; simpl.
  - done.
  - destruct (parseable (Path.extname (Path.join [d; f]))) eqn:Hp; simpl; [|done].
    split_and!; [|done..]. apply queue_extends_push.
    split_and!; [done..|]. by apply bool_decide_eq_true in Hp.
  - done.
Qed.

Lemma keeps_scan (fuel : nat) : respects (scan_keeps env ignore) (DirScan.scan env ignore fuel).
Proof.
  induction fuel as [|fuel IH]; intros st; simpl.
  - by destruct (Queue.hasItems _).
  - destruct (Queue.hasItems _); [|done].
    destruct (Queue.pop _) as [[d|] q]; [|done].
    destruct (readdirSync env d) as [fs|]; [|done].
    etrans; [|apply (respects_bind (scan_keeps env ignore));
               [apply (respects_forEach (scan_keeps env ignore)), keeps_scanEntry
               |intros _; apply IH]].
    done.
Qed.

Lemma keeps_constructor (fuel : nat) :
  respects (scan_keeps env ignore) (DirScan.constructor env root ignore fuel).
Proof.
  unfold DirScan.constructor.
  apply (respects_bind (scan_keeps env ignore)).
  { intros st. unfold DirScan.compileIgnore. by destruct (regexp_valid env _). }
  intros _. apply (respects_bind (scan_keeps env ignore)).
  - intros st. unfold DirScan.validate. destruct (existsSync env root); simpl; [done|].
    split_and!; [done..|]. by apply prefix_app_r.
  - intros _. apply (respects_bind (scan_keeps env ignore)).
    + by apply (respects_modify (scan_keeps env ignore)).
    + intros _. apply keeps_scan.
Qed.

End scan_keeps_facts.

(** X18: whatever the directory tree looks like and however the
    constructor of the directory-scan variant ends, the analyze queue it
    leaves holds only paths that are files, do not match the ignore
    pattern and have one of the extensions [.ts], [.js], [.jsx]; the
    registry is still empty. *)
Theorem scan_queues_only_scannable_files (env : NodeEnv) (root ignore : string)
    (fuel : nat) :
  let st := final (DirScan.constructor env root ignore fuel DirScan.initial) in
  (∃ l, Queue.repr (DirScan.analyzeQueue st) l ∧ Forall (scannable env ignore) l)
  ∧ DirScan.analyzedModules st = JsObject.empty.
Proof.
  cbv zeta.
  destruct (keeps_constructor env root ignore fuel DirScan.initial) as (Hq & Hr & _).
  split; [|done].
  destruct (Hq [] repr_empty) as (l & Hl & HP). by exists l.
Qed.

(** ** What the entry-seeded analysis keeps *)

Global Instance entry_analysis_keeps_refl : Reflexive entry_analysis_keeps.
Proof. intros st. by split_and!. Qed.

Global Instance entry_analysis_keeps_trans : Transitive entry_analysis_keeps.
Proof.
  intros s1 s2 s3 (H1 & H2 & H3 & H4) (H1' & H2' & H3' & H4').
  split_and!; by etrans.
Qed.

Section entry_keeps.
Variable env : NodeEnv.
Variable root : string.
Variable alias : gmap string string.

Lemma keeps_resolved_entry (r : resolution) :
  respects entry_analysis_keeps (EntrySeeded.resolved r).
Proof.
  intros st. destruct r; simpl; [done|].
  split_and!; [done| |done|done]. by apply prefix_app_r.
Qed.

Lemma keeps_safePushToQueue (item : EntrySeeded.QueueItem) (st : EntrySeeded.state) :
  is_Some (EntrySeeded.parent item) →
  entry_analysis_keeps st (EntrySeeded.safePushToQueue item st).
Proof.
  intros [p Hp]. unfold EntrySeeded.safePushToQueue.
  destruct (Resolver.nonempty (Path.extname (EntrySeeded.filePath item))
            && negb (parseable (Path.extname (EntrySeeded.filePath item)))) eqn:Hext;
    [done|].
  destruct (EntrySeeded.parent_in_node_modules item) eqn:Hnm; [done|]. simpl.
  split_and!; [done..|]. apply queue_extends_push. split.
  - exists p. split; [done|]. unfold EntrySeeded.parent_in_node_modules in Hnm.
    by rewrite Hp in Hnm.
  - apply andb_false_iff in Hext as [Hne|Hpa].
    + left. unfold Resolver.nonempty in Hne. by apply negb_false_iff, String.eqb_eq in Hne.
    + right. by apply negb_false_iff, bool_decide_eq_true in Hpa.
Qed.

Lemma keeps_suspectModule_entry (f parent : string) :
  respects entry_analysis_keeps (EntrySeeded.suspectModule env root alias f parent).
Proof.
  apply (respects_bind entry_analysis_keeps).
  - apply keeps_resolved_entry.
  - intros p. apply (respects_modify entry_analysis_keeps). intros st.
    split_and!; [|done..]. apply registry_grows_recordCaller_entry.
Qed.

Lemma keeps_visitor_entry (file : string) (e : event) :
  respects entry_analysis_keeps (EntrySeeded.visitor env root alias file e).
Proof.
  destruct e as [src|callee args loc c|]; simpl.
  - apply (respects_modify entry_analysis_keeps). intros st.
    by apply keeps_safePushToQueue.
  - unfold EntrySeeded.onCallExpression.
    destruct (_ || _); [apply (respects_ret entry_analysis_keeps)|].
    destruct (truthy _); [apply (respects_ret entry_analysis_keeps)|].
    destruct args as [|a args]; [apply (respects_throw entry_analysis_keeps)|].
    apply (respects_bind entry_analysis_keeps);
      [apply (respects_validateString entry_analysis_keeps)|].
    intros m. apply (respects_bind entry_analysis_keeps).
    + apply (respects_modify entry_analysis_keeps). intros st.
      by apply keeps_safePushToQueue.
    + intros _. apply keeps_suspectModule_entry.
  - apply (respects_modify entry_analysis_keeps). intros st.
    split_and!; [|done..]. apply registry_grows_mark.
Qed.

Lemma keeps_analyze_entry (item : EntrySeeded.QueueItem) :
  respects entry_analysis_keeps (EntrySeeded.analyze env root alias item).
Proof.
  unfold EntrySeeded.analyze. apply (respects_bind entry_analysis_keeps).
  - apply keeps_resolved_entry.
  - intros p st. destruct (_ || _); [done|].
    destruct (readFileSync env p); [|done].
    destruct (parse env _ _) as [e|ast]; [done|].
    apply (respects_bind entry_analysis_keeps).
    + apply (respects_forEach entry_analysis_keeps), keeps_visitor_entry.
    + intros _. apply (respects_modify entry_analysis_keeps). intros st'.
      split_and!; [done..| |done]. simpl. set_solver.
Qed.

Lemma drain_keeps_entry (fuel : nat) :
  ∀ st, let st' := final (EntrySeeded.drain env root alias fuel st) in
        registry_grows (EntrySeeded.suspiciousModules st) (EntrySeeded.suspiciousModules st')
        ∧ EntrySeeded.console st `prefix_of` EntrySeeded.console st'
        ∧ EntrySeeded.analyzedModules st ⊆ EntrySeeded.analyzedModules st'.
Proof.
  induction fuel as [|fuel IH]; intros st; simpl.
  - by destruct (Queue.hasItems _).
  - destruct (Queue.hasItems _); [|done].
    destruct (Queue.pop _) as [[i|] q]; [|done].
    unfold bind.
    pose proof (keeps_analyze_entry i (EntrySeeded.set_queue q st)) as (Hr & Hc & Ha & _).
    destruct (EntrySeeded.analyze _ _ _ _ _) as [[] s1| |]; simpl in *; [|done..].
    destruct (IH s1) as (Hr' & Hc' & Ha'). split_and!; by etrans.
Qed.

End entry_keeps.

(** X19: in the entry-seeded variant an [analyze] call, however it ends,
    only adds: registry keys stay in place, no flag is taken back, callers
    are added behind the recorded ones, console and the set of analyzed
    files only gain, and the queue only gains, at its tail, edges found in
    a file outside [node_modules] with no extension or a parseable one.
    The drain loop as a whole keeps registry, console and analyzed files
    growing. *)
Theorem entry_analysis_only_gains (env : NodeEnv) (root : string)
    (alias : gmap string string) (item : EntrySeeded.QueueItem) (fuel : nat)
    (st : EntrySeeded.state) :
  entry_analysis_keeps st (final (EntrySeeded.analyze env root alias item st))
  ∧ (let st' := final (EntrySeeded.drain env root alias fuel st) in
     registry_grows (EntrySeeded.suspiciousModules st) (EntrySeeded.suspiciousModules st')
     ∧ EntrySeeded.console st `prefix_of` EntrySeeded.console st'
     ∧ EntrySeeded.analyzedModules st ⊆ EntrySeeded.analyzedModules st').
Proof.
  split; [apply keeps_analyze_entry|apply drain_keeps_entry].
Qed.

(** X20: [analyze] of the entry-seeded variant is idempotent: once a call
    on a queue item has completed, another call on the same item changes
    nothing, because the resolved file is in the set of analyzed files or
    has no parseable extension. *)
Theorem entry_analyze_idempotent (env : NodeEnv) (root : string)
    (alias : gmap string string) (item : EntrySeeded.QueueItem)
    (st st' : EntrySeeded.state) :
  EntrySeeded.analyze env root alias item st = Done tt st' →
  EntrySeeded.analyze env root alias item st' = Done tt st'
  ∧ ∃ p, Resolver.resolveWithExtension env root
           (Resolver.replaceAlias root alias (EntrySeeded.filePath item))
           (EntrySeeded.parent item) = Resolved p
         ∧ (p ∈ EntrySeeded.analyzedModules st'
            ∨ Path.extname p ∉ PARSEABLE_EXTENSIONS).
Proof.
  unfold EntrySeeded.analyze, bind, EntrySeeded.resolveFilePath, EntrySeeded.resolved.
  destruct (Resolver.resolveWithExtension _ _ _ _) as [p|line]; [|done].
  destruct (bool_decide (p ∈ EntrySeeded.analyzedModules st)
            || negb (parseable (Path.extname p))) eqn:Hguard.
  - intros [= <-]. rewrite Hguard. split; [done|]. exists p. split; [done|].
    apply orb_true_iff in Hguard as [H|H].
    + left. by apply bool_decide_eq_true in H.
    + right. by apply negb_true_iff, bool_decide_eq_false in H.
  - destruct (readFileSync env p); [|done].
    destruct (parse env _ _) as [e|ast]; [done|].
    destruct (EntrySeeded.traverse _ _ _) as [[] s2| |]; [|done..].
    unfold modify. intros [= <-]. simpl.
    rewrite bool_decide_eq_true_2 by set_solver. simpl. split; [done|].
    exists p. split; [done|]. left. set_solver.
Qed.

Lemma entry_analyze_idempotent_witness :
  ∃ st', EntrySeeded.analyze (Fixture.env Fixture.readme) "/proj" ∅
           (EntrySeeded.mkItem "./c.js" None) EntrySeeded.initial
         = Done tt st'
         ∧ EntrySeeded.analyze (Fixture.env Fixture.readme) "/proj" ∅
             (EntrySeeded.mkItem "./c.js" None) st'
           = Done tt st'
         ∧ ∃ p, Resolver.resolveWithExtension (Fixture.env Fixture.readme) "/proj"
                  (Resolver.replaceAlias "/proj" ∅ "./c.js") None = Resolved p
                ∧ (p ∈ EntrySeeded.analyzedModules st'
                   ∨ Path.extname p ∉ PARSEABLE_EXTENSIONS).
Proof.
  eexists. split; [vm_compute; reflexivity|].
  apply (entry_analyze_idempotent (Fixture.env Fixture.readme) "/proj" ∅
           (EntrySeeded.mkItem "./c.js" None) EntrySeeded.initial).
  vm_compute. reflexivity.
Defined.

(** ** Files inside [node_modules] lead nowhere *)

Global Instance queue_kept_refl : Reflexive queue_kept.
Proof. by intros st. Qed.

Global Instance queue_kept_trans : Transitive queue_kept.
Proof. unfold queue_kept. intros s1 s2 s3 H1 H2. congruence. Qed.

Section dependency_files.
Variable env : NodeEnv.
Variable root : string.
Variable alias : gmap string string.
Variable file : string.
Hypothesis Hfile : JsString.includes file "node_modules" = true.

Lemma safePushToQueue_from_dependency (spec : string) (st : EntrySeeded.state) :
  EntrySeeded.safePushToQueue (EntrySeeded.mkItem spec (Some file)) st = st.
Proof using Hfile.
  unfold EntrySeeded.safePushToQueue, EntrySeeded.parent_in_node_modules. simpl.
  by rewrite Hfile, orb_true_r.
Qed.

Lemma queue_kept_visitor (e : event) :
  respects queue_kept (EntrySeeded.visitor env root alias file e).
Proof using Hfile.
  destruct e as [src|callee args loc c|]; simpl.
  - apply (respects_modify queue_kept). intros st.
    by rewrite safePushToQueue_from_dependency.
  - unfold EntrySeeded.onCallExpression.
    destruct (_ || _); [apply (respects_ret queue_kept)|].
    destruct (truthy _); [apply (respects_ret queue_kept)|].
    destruct args as [|a args]; [apply (respects_throw queue_kept)|].
    apply (respects_bind queue_kept); [apply (respects_validateString queue_kept)|].
    intros m. apply (respects_bind queue_kept).
    + apply (respects_modify queue_kept). intros st.
      by rewrite safePushToQueue_from_dependency.
    + intros _. apply (respects_bind queue_kept).
      * intros st. unfold EntrySeeded.resolveFilePath, EntrySeeded.resolved.
        by destruct (Resolver.resolveWithExtension _ _ _ _).
      * intros p. by apply (respects_modify queue_kept).
  - by apply (respects_modify queue_kept).
Qed.

End dependency_files.

(** X21: analyzing a file whose resolved path contains [node_modules]
    adds nothing to the queue, however the analysis ends: the imports and
    requires of an installed package are not followed. *)
Theorem dependency_files_enqueue_nothing (env : NodeEnv) (root : string)
    (alias : gmap string string) (item : EntrySeeded.QueueItem) (p : string)
    (st : EntrySeeded.state) :
  Resolver.resolveWithExtension env root
    (Resolver.replaceAlias root alias (EntrySeeded.filePath item))
    (EntrySeeded.parent item) = Resolved p →
  JsString.includes p "node_modules" = true →
  EntrySeeded.queue (final (EntrySeeded.analyze env root alias item st))
  = EntrySeeded.queue st.
Proof.
  intros Hres Hp.
  unfold EntrySeeded.analyze, bind, EntrySeeded.resolveFilePath, EntrySeeded.resolved.
  rewrite Hres. destruct (_ || _); [done|].
  destruct (readFileSync env p); [|done].
  destruct (parse env _ _) as [e|ast]; [done|].
  pose proof (respects_forEach queue_kept (EntrySeeded.visitor env root alias p)
                (events CNone ast) (queue_kept_visitor env root alias p Hp) st) as Hk.
  unfold EntrySeeded.traverse.
  destruct (forEach _ _ st) as [[] s2| |]; simpl in *; done.
Qed.

Lemma dependency_files_enqueue_nothing_witness :
  EntrySeeded.queue
    (final (EntrySeeded.analyze (Fixture.env Fixture.dependency) "/proj" ∅
              (EntrySeeded.mkItem "lib" (Some "/proj/a.js")) EntrySeeded.initial))
  = EntrySeeded.queue EntrySeeded.initial.
Proof.
  apply (dependency_files_enqueue_nothing (Fixture.env Fixture.dependency) "/proj" ∅
           (EntrySeeded.mkItem "lib" (Some "/proj/a.js"))
           "/proj/node_modules/lib/index.js" EntrySeeded.initial);
    reflexivity.
Defined.

(** ** Call sites in a file that is traversed *)




Section traversed.
Variable env : NodeEnv.
Variable root : string.
Variable alias : gmap string string.
Variables (x m : string) (loc : nat * nat) (file : string) (pre post : list node).

Let body := pre ++ const_require x m loc :: post.




End traversed.

Section traversed_files.
Variable env : NodeEnv.
Variable root : string.
Variable alias : gmap string string.
Variables (x m : string) (loc : nat * nat) (file source : string) (pre post : list node).

Let body := pre ++ const_require x m loc :: post.

Hypothesis Hread : readFileSync env file = Some source.



End traversed_files.



